(** * Meal-Counter-Pro: the extraction and layout engine of [MealCounter]

    A shallow embedding of [src/meal_counter_automation.py] (the same
    class is duplicated in [src/app.py]) and the properties of its
    specification, followed by the command line of the script and by the
    download name and the progress callback of [src/app.py].

    Modelling conventions.
    - A Python [str] is a [string]; its characters are the code points
      below 256, and [str.lower], [str.strip] and the regular-expression
      classes [\d], [\s], [\w] are given on that range as CPython defines
      them.
    - A Python [int] is a [Z]; [int(s)] is the mathematical value of the
      digit string (the interpreter's limit on the length of a digit
      string is not modelled).
    - A Python [float] (page sizes and rectangle coordinates) is an exact
      rational [Q]: the layout formulas are studied in exact arithmetic,
      rounding is outside the model.
    - [defaultdict(int)] is a [gmap string Z]; a missing key reads as 0.
    - The [while] loop over the cursor [i] is defined by well-founded
      recursion on [len(lines) - i]. *)

From Stdlib Require Import ZArith QArith Lqa Ascii String List Sorting.Sorted.
From Equations Require Import Equations.
From stdpp Require Import base decidable option list sorting gmap strings pretty.
Import ListNotations.

#[local] Open Scope Z_scope.
#[local] Open Scope list_scope.
#[local] Open Scope stdpp_scope.

(** ** Characters *)

Definition ord (c : ascii) : N := N_of_ascii c.
Definition chr (n : N) : ascii := ascii_of_N n.

Definition between (lo hi : N) (c : ascii) : bool :=
  ((lo <=? ord c) && (ord c <=? hi))%N.

(** [\d]: the decimal digits. *)
Definition is_digit (c : ascii) : bool := between 48 57 c.

(** [str.isspace] and [\s]: TAB..CR, FS..US, space, NEL, NBSP. *)
Definition is_space (c : ascii) : bool :=
  between 9 13 c || between 28 32 c || (ord c =? 133)%N || (ord c =? 160)%N.

(** [\w]: alphanumeric code points and the underscore. *)
Definition is_word (c : ascii) : bool :=
  between 48 57 c || between 65 90 c || (ord c =? 95)%N || between 97 122 c
  || (ord c =? 170)%N || between 178 179 c || (ord c =? 181)%N
  || between 185 186 c || between 188 190 c || between 192 214 c
  || between 216 246 c || between 248 255 c.

Definition is_upper (c : ascii) : bool :=
  between 65 90 c || between 192 214 c || between 216 222 c.

Definition lower_char (c : ascii) : ascii :=
  if is_upper c then chr (ord c + 32) else c.

(** ** Strings *)

(** [s.lower()] *)
Fixpoint lower (s : string) : string :=
  match s with
  | EmptyString => EmptyString
  | String c s' => String (lower_char c) (lower s')
  end.

Fixpoint lstrip (s : string) : string :=
  match s with
  | EmptyString => EmptyString
  | String c s' => if is_space c then lstrip s' else s
  end.

Fixpoint rstrip (s : string) : string :=
  match s with
  | EmptyString => EmptyString
  | String c s' =>
      match rstrip s' with
      | EmptyString => if is_space c then EmptyString else String c EmptyString
      | r => String c r
      end
  end.

(** [s.strip()] *)
Definition strip (s : string) : string := rstrip (lstrip s).

(** [p in s] for strings: [p] occurs as a contiguous substring of [s]. *)
Fixpoint str_in (p s : string) : bool :=
  String.prefix p s ||
  match s with
  | EmptyString => false
  | String _ s' => str_in p s'
  end.

(** [s in l] for a list of strings. *)
Definition list_in (s : string) (l : list string) : bool :=
  existsb (String.eqb s) l.

(** [text.split('\n')] *)
Fixpoint split_lines (text : string) : list string :=
  match text with
  | EmptyString => [EmptyString]
  | String c text' =>
      if (ord c =? 10)%N then EmptyString :: split_lines text'
      else match split_lines text' with
           | [] => [String c EmptyString]
           | l :: ls => String c l :: ls
           end
  end.

(** ** Regular expressions of the source, each as a matcher *)

(** [$]: the end of the string, or just before a newline that ends it. *)
Definition at_end (s : string) : bool :=
  match s with
  | EmptyString => true
  | String c EmptyString => (ord c =? 10)%N
  | _ => false
  end.

Fixpoint skip_digits (s : string) : string :=
  match s with
  | String c s' => if is_digit c then skip_digits s' else s
  | EmptyString => EmptyString
  end.

Fixpoint skip_spaces (s : string) : string :=
  match s with
  | String c s' => if is_space c then skip_spaces s' else s
  | EmptyString => EmptyString
  end.

(** [re.match(r'^\d+$', s)] *)
Definition re_bare_int (s : string) : bool :=
  match s with
  | String c s' => is_digit c && at_end (skip_digits s')
  | EmptyString => false
  end.

(** [re.match(r'\d{2}\s+\w+', s)] *)
Definition re_day_month (s : string) : bool :=
  match s with
  | String d1 (String d2 (String w s')) =>
      is_digit d1 && is_digit d2 && is_space w &&
      match skip_spaces s' with
      | String c _ => is_word c
      | EmptyString => false
      end
  | _ => false
  end.

(** [re.match(r'\d{4}$', s)] *)
Definition re_four_digits (s : string) : bool :=
  match s with
  | String d1 (String d2 (String d3 (String d4 s'))) =>
      is_digit d1 && is_digit d2 && is_digit d3 && is_digit d4 && at_end s'
  | _ => false
  end.

(** [re.match(r'\d{2}/\d{2}/\d{2}', s)] *)
Definition re_date (s : string) : bool :=
  match s with
  | String d1 (String d2 (String s1 (String d3 (String d4
      (String s2 (String d5 (String d6 _))))))) =>
      is_digit d1 && is_digit d2 && (ord s1 =? 47)%N &&
      is_digit d3 && is_digit d4 && (ord s2 =? 47)%N &&
      is_digit d5 && is_digit d6
  | _ => false
  end.

(** [int(s)] at its one call site, where [s] matches [^\d+$]: the value
    of the leading run of digits. *)
Fixpoint int_digits (acc : Z) (s : string) : Z :=
  match s with
  | String c s' =>
      if is_digit c then int_digits (10 * acc + (Z.of_N (ord c) - 48)) s'
      else acc
  | EmptyString => acc
  end.

Definition py_int (s : string) : Z := int_digits 0 s.

(** [range(a, b)] *)
Definition py_range (a b : nat) : list nat := seq a (b - a).

(** ** [MealCounter.categorize_meal] *)

Definition categorize_meal (meal_name : string) : string :=
  let meal_lower := lower meal_name in
  if str_in "beef" meal_lower || str_in "beefy" meal_lower then "Beef Meal"
  else if str_in "lentil" meal_lower then "Lentil Meal"
  else if str_in "chicken" meal_lower then "Chicken Meal"
  else if str_in "vegetarian" meal_lower || str_in "veggie" meal_lower
       then "Vegetarian Meal"
  else if str_in "fish" meal_lower then "Fish Meal"
  else strip meal_name.

(** ** [MealCounter.extract_meals_from_page] *)

(** The list literal of line 45. *)
Definition skip_words : list string :=
  ["Date"; "School"; "Meal"; "Quantity"; "Grade"; "Class"; "Diner"; "Cycle 5"].

(** The list literal of line 62. *)
Definition continuation_stop_words : list string :=
  ["Date"; "School"; "Meal"; "Quantity"; "Grade"; "Class"; "Diner"].

(** The list literal of line 57. *)
Definition food_keywords : list string :=
  ["pasta"; "pizza"; "burger"; "salad"; "soup"; "rice"; "chicken"; "beef";
   "lentil"; "fish"].

(** [lines[i].strip()]; every use is guarded by [i < len(lines)]. *)
Definition line_at (lines : list string) (i : nat) : string :=
  strip (nth i lines EmptyString).

(** The three tests of lines 45-55 that end in [i += 1; continue]. *)
Definition is_noise (line : string) : bool :=
  (String.eqb line EmptyString || list_in line skip_words)
  || (re_day_month line || re_four_digits line || re_date line)
  || str_in "total" (lower line).

(** The test of line 57. *)
Definition has_food_keyword (line : string) : bool :=
  existsb (fun keyword => str_in keyword (lower line)) food_keywords.

(** The test of line 62 on [next_line]. *)
Definition is_continuation (next_line : string) : bool :=
  negb (String.eqb next_line EmptyString)
  && negb (re_bare_int next_line)
  && negb (re_day_month next_line)
  && negb (list_in next_line continuation_stop_words).

(** Lines 58-64: the meal name and the cursor after the optional merge. *)
Definition name_continuation (lines : list string) (i : nat) : string * nat :=
  let meal_name := line_at lines i in
  if (i + 1 <? length lines)%nat then
    let next_line := line_at lines (i + 1) in
    if is_continuation next_line
    then (meal_name +:+ " " +:+ next_line, (i + 1)%nat)
    else (meal_name, i)
  else (meal_name, i).

(** Lines 66-73: the [for j in ...] loop with its [break]; [js] is the
    part of the range not yet visited. *)
Fixpoint scan_quantity (lines : list string) (js : list nat) : Z :=
  match js with
  | [] => 0
  | j :: js' =>
      let qty_line := line_at lines j in
      if re_bare_int qty_line then
        let qty := py_int qty_line in
        if (1 <=? qty) && (qty <=? 100) then qty
        else scan_quantity lines js'
      else scan_quantity lines js'
  end.

Definition find_quantity (lines : list string) (i : nat) : Z :=
  scan_quantity lines (py_range (i + 1) (Nat.min (i + 5) (length lines))).

(** A parsed unit: the values of [meal_name] and [quantity] when line 77
    runs. *)
Record MealRecord := { name : string; quantity : Z }.

(** One iteration of the [while] body at cursor [i] (with [i < len(lines)]):
    the cursor after the final [i += 1], and the record that lines 75-77
    add to [meal_counts], if any. *)
Definition loop_body (lines : list string) (i : nat) : nat * option MealRecord :=
  let line := line_at lines i in
  if is_noise line then (S i, None)
  else if has_food_keyword line then
    let '(meal_name, i1) := name_continuation lines i in
    let quantity := find_quantity lines i1 in
    if 0 <? quantity
    then (S i1, Some {| name := meal_name; quantity := quantity |})
    else (S i1, None)
  else (S i, None).

(** [meal_counts[meal_category] += quantity] on a [defaultdict(int)]. *)
Definition add_count (meal_category : string) (quantity : Z)
    (meal_counts : gmap string Z) : gmap string Z :=
  <[meal_category := default 0 (meal_counts !! meal_category) + quantity]> meal_counts.

(** Lines 75-77. *)
Definition count_record (r : option MealRecord) (meal_counts : gmap string Z)
    : gmap string Z :=
  match r with
  | Some r => add_count (categorize_meal (name r)) (quantity r) meal_counts
  | None => meal_counts
  end.

(** The [while i < len(lines)] loop. *)
Equations? while_loop (lines : list string) (i : nat)
    (meal_counts : gmap string Z) : gmap string Z
    by wf (length lines - i)%nat lt :=
  while_loop lines i meal_counts with lt_dec i (length lines) := {
    | left _ => while_loop lines (fst (loop_body lines i))
                  (count_record (snd (loop_body lines i)) meal_counts);
    | right _ => meal_counts }.
Proof.
  clear while_loop. unfold loop_body, name_continuation.
  repeat (case_match; simpl; simplify_eq; try lia).
Qed.

Definition extract_meals_from_lines (lines : list string) : gmap string Z :=
  while_loop lines 0 ∅.

(** [fitz.Rect(x_left, y_top, x_right, y_bottom)] *)
Record Rect := { x_left : Q; y_top : Q; x_right : Q; y_bottom : Q }.

Inductive TextAlign :=
| TEXT_ALIGN_LEFT | TEXT_ALIGN_CENTER | TEXT_ALIGN_RIGHT | TEXT_ALIGN_JUSTIFY.

(** The arguments of [page.add_freetext_annot] and of [annot.set_border]:
    what the external renderer is handed for one block. *)
Record AnnotationBlock := {
  rect : Rect;
  text : string;
  fontsize : Z;
  fontname : string;
  text_color : Q * Q * Q;
  fill_color : Q * Q * Q;
  align : TextAlign;
  border_width : Z }.

(** A page of the document: the text [page.get_text()] returns when the
    page is read at line 38, [page.rect.width], [page.rect.height] and the
    annotations added so far.  [process_pdf] reads each page once, before
    it adds blocks to it; what [get_text()] would return on a page that
    has been given blocks is not modelled, and [page_text] stays the text
    that was read. *)
Record Page := {
  page_text : string;
  page_width : Q;
  page_height : Q;
  page_annots : list AnnotationBlock }.

Definition extract_meals_from_page (page : Page) : gmap string Z :=
  extract_meals_from_lines (split_lines (page_text page)).

(** The records of a page, in cursor order: what lines 75-77 are run
    with.  [extract_meals_from_lines] never builds this list; it is the
    trace against which its result is stated. *)
Equations? records_from (lines : list string) (i : nat) : list MealRecord
    by wf (length lines - i)%nat lt :=
  records_from lines i with lt_dec i (length lines) := {
    | left _ => option_list (snd (loop_body lines i))
                ++ records_from lines (fst (loop_body lines i));
    | right _ => [] }.
Proof.
  clear records_from. unfold loop_body, name_continuation.
  repeat (case_match; simpl; simplify_eq; try lia).
Qed.

Definition meal_records (lines : list string) : list MealRecord :=
  records_from lines 0.

(** The values of the cursor [i] at which the body of the [while] loop
    runs, from cursor [i] on: the lines the loop reaches. *)
Equations? cursors_from (lines : list string) (i : nat) : list nat
    by wf (length lines - i)%nat lt :=
  cursors_from lines i with lt_dec i (length lines) := {
    | left _ => i :: cursors_from lines (fst (loop_body lines i));
    | right _ => [] }.
Proof.
  clear cursors_from. unfold loop_body, name_continuation.
  repeat (case_match; simpl; simplify_eq; try lia).
Qed.

Definition cursor_positions (lines : list string) : list nat :=
  cursors_from lines 0.

(** Lines 57-62 at cursor [i]: the line there is a candidate with a food
    keyword and the line after it is merged into its name. *)
Definition takes_continuation (lines : list string) (i : nat) : bool :=
  negb (is_noise (line_at lines i))
  && has_food_keyword (line_at lines i)
  && (i + 1 <? length lines)%nat
  && is_continuation (line_at lines (i + 1)).

(** ** [MealCounter.add_totals_to_page] *)

(** Comparison of [(str, int)] tuples: by code points on the key, then
    on the number. *)
Definition item_leb (a b : string * Z) : bool :=
  match String.compare a.1 b.1 with
  | Lt => true
  | Eq => a.2 <=? b.2
  | Gt => false
  end.

Definition item_le (a b : string * Z) : Prop := item_leb a b.

(** [sorted(meal_totals.items())] *)
Definition sorted_items (meal_totals : gmap string Z) : list (string * Z) :=
  merge_sort item_le (map_to_list meal_totals).

Definition line_height : Z := 22.

(** The body of the [for i, (meal_type, total) in enumerate(...)] loop. *)
Definition make_block (page_width start_y : Q) (i : nat) (item : string * Z)
    : AnnotationBlock :=
  let '(meal_type, total) := item in
  let text := meal_type +:+ " Total: " +:+ pretty total in
  let y_top := (start_y + inject_Z (Z.of_nat i * line_height))%Q in
  let y_bottom := (y_top + inject_Z line_height)%Q in
  let text_width := (inject_Z (Z.of_nat (String.length text)) * (96 # 10))%Q in
  let x_left := ((page_width - text_width) / 2)%Q in
  let x_right := (x_left + text_width)%Q in
  {| rect := {| x_left := x_left; y_top := y_top;
                x_right := x_right; y_bottom := y_bottom |};
     text := text;
     fontsize := 16;
     fontname := "helv";
     text_color := (0, 7 # 10, 0)%Q;
     fill_color := (1, 1, 1)%Q;
     align := TEXT_ALIGN_CENTER;
     border_width := 0 |}.

(** The blocks one call adds, in the order it adds them. *)
Definition totals_blocks (page_width page_height : Q)
    (meal_totals : gmap string Z) : list AnnotationBlock :=
  let sorted_meals := sorted_items meal_totals in
  let start_y :=
    (page_height - inject_Z 90
     - inject_Z (Z.of_nat (length sorted_meals) * line_height))%Q in
  imap (make_block page_width start_y) sorted_meals.

Definition add_totals_to_page (page : Page) (meal_totals : gmap string Z) : Page :=
  {| page_text := page_text page;
     page_width := page_width page;
     page_height := page_height page;
     page_annots :=
       page_annots page
       ++ totals_blocks (page_width page) (page_height page) meal_totals |}.

(** ** [MealCounter.process_pdf] *)

(** One iteration of the loop over the pages; [if meal_totals:] is true
    exactly when the dictionary has an entry. *)
Definition process_page (page : Page) : Page :=
  let meal_totals := extract_meals_from_page page in
  if (size meal_totals =? 0)%nat then page
  else add_totals_to_page page meal_totals.

Definition process_pdf (doc : list Page) : list Page :=
  map process_page doc.

(** ** Notions of the specification

    Defined from its words, to state the properties against. *)

(** The Aggregator of the specification: a left fold of lines 76-77. *)
Definition aggregate (records : list MealRecord) (meal_counts : gmap string Z)
    : gmap string Z :=
  foldl (fun counts r => add_count (categorize_meal (name r)) (quantity r) counts)
        meal_counts records.

Definition category_sum (category : string) (records : list MealRecord) : Z :=
  foldr Z.add 0
    (quantity <$> filter (fun r => categorize_meal (name r) = category) records).

(** [s] is a quantity line of value [q]: lines 69-71 accept it. *)
Definition valid_quantity (s : string) (q : Z) : Prop :=
  re_bare_int s = true ∧ py_int s = q ∧ 1 <= q <= 100.

Definition no_quantity (s : string) : Prop := ∀ q, ¬ valid_quantity s q.

(** The window of the lookahead after cursor [i1]: the (at most) four
    following lines. *)
Definition in_window (lines : list string) (i1 j : nat) : Prop :=
  (i1 < j <= i1 + 4 ∧ j < length lines)%nat.

(** Every character of [s] satisfies [P]. *)
Fixpoint all_chars (P : ascii → bool) (s : string) : bool :=
  match s with
  | EmptyString => true
  | String c s' => P c && all_chars P s'
  end.

Definition spaceless (p : string) : bool := all_chars (fun c => negb (is_space c)) p.

(** [name] mentions [keyword], whatever the case of its letters. *)
Definition mentions (keyword name : string) : Prop :=
  str_in keyword (lower name) = true.

(** Strict order of strings by code points: Python's [<] on [str]. *)
Definition str_lt (s1 s2 : string) : Prop := String.compare s1 s2 = Lt.

(** A natural number ([len(...)], an index) used as a float. *)
Definition Qnat (n : nat) : Q := inject_Z (Z.of_nat n).

(** A page cut into self-contained pieces: a line that starts no record,
    or a meal block (name line, at most one continuation line, quantity
    line). *)
Inductive segment :=
| Filler (line : string)
| Meal (name_line : string) (continuation : option string) (quantity_line : string).

Definition segment_lines (s : segment) : list string :=
  match s with
  | Filler l => [l]
  | Meal n None q => [n; q]
  | Meal n (Some c) q => [n; c; q]
  end.

Definition page_of (segments : list segment) : list string :=
  concat (segment_lines <$> segments).

Definition well_formed (s : segment) : Prop :=
  match s with
  | Filler l => is_noise (strip l) = true ∨ has_food_keyword (strip l) = false
  | Meal n c q =>
      is_noise (strip n) = false
      ∧ has_food_keyword (strip n) = true
      ∧ match c with
        | Some c => is_continuation (strip c) = true
        | None => True
        end
      ∧ valid_quantity (strip q) (py_int (strip q))
  end.

Definition segment_record (s : segment) : option MealRecord :=
  match s with
  | Filler _ => None
  | Meal n None q => Some {| name := strip n; quantity := py_int (strip q) |}
  | Meal n (Some c) q =>
      Some {| name := strip n +:+ " " +:+ strip c; quantity := py_int (strip q) |}
  end.

Definition digit_or_newline (c : ascii) : bool := is_digit c || (ord c =? 10)%N.

(** The ordered rule list of the Categorizer. *)
Definition category_rules : list (list string * string) :=
  [ (["beef"; "beefy"], "Beef Meal");
    (["lentil"], "Lentil Meal");
    (["chicken"], "Chicken Meal");
    (["vegetarian"; "veggie"], "Vegetarian Meal");
    (["fish"], "Fish Meal") ].

Fixpoint first_match (rules : list (list string * string))
    (fallback lowered : string) : string :=
  match rules with
  | [] => fallback
  | (keywords, category) :: rules' =>
      if existsb (fun keyword => str_in keyword lowered) keywords then category
      else first_match rules' fallback lowered
  end.

Definition categorize_by_rules (meal_name : string) : string :=
  first_match category_rules (strip meal_name) (lower meal_name).

(** ** [main] of [meal_counter_automation.py] *)

(** [s.endswith(suffix)]: some tail of [s] is [suffix]. *)
Fixpoint endswith (s suffix : string) : bool :=
  String.eqb s suffix ||
  match s with
  | EmptyString => false
  | String _ s' => endswith s' suffix
  end.

(** [s[:n]] for a natural number [n]. *)
Fixpoint str_take (n : nat) (s : string) : string :=
  match n, s with
  | S n', String c s' => String c (str_take n' s')
  | _, _ => EmptyString
  end.

(** [s[:-n]] for [n > 0]: [s] without its last [n] characters, empty
    when [s] has fewer. *)
Definition drop_last (n : nat) (s : string) : string :=
  str_take (String.length s - n) s.

(** Lines 163-166: the output path when [sys.argv] gives none. *)
Definition default_output (input_pdf : string) : string :=
  if endswith input_pdf ".pdf"
  then drop_last 4 input_pdf +:+ "_with_totals.pdf"
  else input_pdf +:+ "_with_totals.pdf".

(** What [main] does with [sys.argv]: it leaves with [sys.exit(code)]
    after the usage line, or it runs
    [MealCounter(input_pdf, output_pdf).process_pdf()]. *)
Inductive MainOutcome :=
| UsageExit (code : Z)
| RunCounter (input_pdf output_pdf : string).

Definition main (argv : list string) : MainOutcome :=
  if (length argv <? 2)%nat then UsageExit 1
  else
    let input_pdf := nth 1 argv EmptyString in
    let output_pdf :=
      if (3 <=? length argv)%nat then nth 2 argv EmptyString
      else default_output input_pdf in
    RunCounter input_pdf output_pdf.

(** ** The download name and the progress callback of [app.py] *)

(** [s.replace(old, new)] for a non-empty [old], as at its call sites:
    the occurrences of [old] are replaced from left to right, without
    overlap; [skip] counts the characters of a replaced occurrence still
    to pass. *)
Fixpoint replace_from (old new : string) (skip : nat) (s : string) : string :=
  match s with
  | EmptyString => EmptyString
  | String c s' =>
      match skip with
      | S skip' => replace_from old new skip' s'
      | O =>
          if String.prefix old s
          then new +:+ replace_from old new (String.length old - 1) s'
          else String c (replace_from old new 0 s')
      end
  end.

Definition py_replace (old new s : string) : string := replace_from old new 0 s.

(** [uploaded_file.name.replace('.pdf', '_with_totals.pdf')]
    (app.py, lines 326 and 402). *)
Definition output_filename (upload_name : string) : string :=
  py_replace ".pdf" "_with_totals.pdf" upload_name.

(** [update_progress(current, total)] (app.py, lines 306-309): the value
    of [current / total] handed to [progress_bar.progress]; [None] stands
    for the [ZeroDivisionError] of the division. *)
Definition update_progress (current total : nat) : option Q :=
  if (total =? 0)%nat then None
  else Some (Qnat current / Qnat total)%Q.

(** One iteration of the page loop of [process_pdf] in app.py (lines
    140-148): the page at [page_num] is processed in place, then the
    callback is called with [(page_num + 1, total_pages)].  The state is
    the document and the calls made so far. *)
Definition app_loop_body (total_pages : nat)
    (state : list Page * list (nat * nat)) (page_num : nat)
    : list Page * list (nat * nat) :=
  let '(doc, calls) := state in
  match doc !! page_num with
  | Some page =>
      (<[page_num := process_page page]> doc,
       calls ++ [((page_num + 1)%nat, total_pages)])
  | None => state
  end.

(** [MealCounter.process_pdf(progress_callback)] of app.py. *)
Definition app_process_pdf (doc : list Page) : list Page * list (nat * nat) :=
  let total_pages := length doc in
  foldl (app_loop_body total_pages) (doc, []) (py_range 0 total_pages).

(** The sum of the values of a mapping. *)
Definition sum_values (meal_totals : gmap string Z) : Z :=
  map_fold (fun _ total acc => total + acc) 0 meal_totals.

(** [s] has no white space at either end. *)
Definition stripped (s : string) : Prop := strip s = s.

(** The food keywords that belong to no category rule. *)
Definition plain_keywords : list string :=
  ["pasta"; "pizza"; "burger"; "salad"; "soup"; "rice"].

(** * Properties *)

(** ** The scenarios of the specification *)

Example scenario1 :
  extract_meals_from_lines ["Chicken Curry"; "Rice"; "45"; "Date"; "01 Jan"]
  = {[ "Chicken Meal" := 45 ]}.
Proof. vm_compute. reflexivity. Qed.

Example scenario2 :
  extract_meals_from_lines ["Beefy Stew"; "12"; "Lentil Soup"; "8"]
  = {[ "Beef Meal" := 12; "Lentil Meal" := 8 ]}.
Proof. vm_compute. reflexivity. Qed.

Example scenario2_layout :
  map (fun b => (text b, y_top (rect b), y_bottom (rect b)))
      (totals_blocks 600 800 {[ "Beef Meal" := 12; "Lentil Meal" := 8 ]})
  = [("Beef Meal Total: 12", 800 - 90 - 44 + 0, 800 - 90 - 44 + 0 + 22);
     ("Lentil Meal Total: 8", 800 - 90 - 44 + 22, 800 - 90 - 44 + 22 + 22)]%Q.
Proof. vm_compute. reflexivity. Qed.

(** "Veggie Bowl" holds none of the food keywords of line 57, so it
    starts no record, whatever follows it. *)
Example scenario4 :
  has_food_keyword "Veggie Bowl" = false
  ∧ extract_meals_from_lines ["Veggie Bowl"; "150"] = ∅.
Proof. vm_compute. split; reflexivity. Qed.

Example scenario5 :
  extract_meals_from_lines ["Fish Fillet"; "Grade"; "7"] = {[ "Fish Meal" := 7 ]}
  ∧ meal_records ["Fish Fillet"; "Grade"; "7"]
    = [{| name := "Fish Fillet"; quantity := 7 |}].
Proof. vm_compute. split; reflexivity. Qed.

(** ** Strings *)

Ltac each_char c := destruct c as [[] [] [] [] [] [] [] []].

Lemma is_space_lower_char c : is_space (lower_char c) = is_space c.
Proof. each_char c; reflexivity. Qed.

Lemma prefix_cons a p c s :
  String.prefix (String a p) (String c s) =
  if decide (a = c) then String.prefix p s else false.
Proof. simpl. destruct (ascii_dec a c); case_decide; done. Qed.

Lemma str_in_cons p c s :
  str_in p (String c s) = String.prefix p (String c s) || str_in p s.
Proof. done. Qed.

Lemma prefix_empty_r p : String.prefix p EmptyString = true → p = EmptyString.
Proof. by destruct p. Qed.

Lemma prefix_app_l q : ∀ p s,
  String.prefix (p +:+ q) s = true → String.prefix p s = true.
Proof.
  induction p as [|a p IH]; intros s; [by destruct s|].
  destruct s as [|c s]; [done|].
  change (String a p +:+ q) with (String a (p +:+ q)).
  rewrite !prefix_cons. case_decide; [apply IH|done].
Qed.

Lemma str_in_app_l p q s : str_in (p +:+ q) s = true → str_in p s = true.
Proof.
  induction s as [|c s IH].
  - cbn [str_in]. rewrite !orb_false_r. apply prefix_app_l.
  - rewrite !str_in_cons, !orb_true_iff.
    intros [H%prefix_app_l|H]; auto.
Qed.

(** Stripping commutes with lower-casing, and keeps every occurrence of
    a word without white space. *)

Lemma lower_lstrip s : lower (lstrip s) = lstrip (lower s).
Proof.
  induction s as [|c s IH]; [done|]. simpl.
  rewrite is_space_lower_char. by destruct (is_space c).
Qed.

Lemma lower_rstrip s : lower (rstrip s) = rstrip (lower s).
Proof.
  induction s as [|c s IH]; [done|]. simpl. rewrite <- IH.
  destruct (rstrip s); simpl; [|done].
  rewrite is_space_lower_char. by destruct (is_space c).
Qed.

Lemma lower_strip s : lower (strip s) = strip (lower s).
Proof. unfold strip. by rewrite lower_rstrip, lower_lstrip. Qed.

Lemma str_in_lstrip a p s :
  is_space a = false →
  str_in (String a p) s = true → str_in (String a p) (lstrip s) = true.
Proof.
  intros Ha. induction s as [|c s IH]; [done|].
  simpl lstrip. destruct (is_space c) eqn:Hc; [|done].
  rewrite str_in_cons, prefix_cons. case_decide; [congruence|]. done.
Qed.

Lemma prefix_rstrip s : ∀ p,
  spaceless p = true →
  String.prefix p s = true → String.prefix p (rstrip s) = true.
Proof.
  induction s as [|c s IH]; intros [|a p] Hp; try done.
  { intros _. by destruct (rstrip (String c s)). }
  apply andb_true_iff in Hp as [Ha Hp].
  rewrite prefix_cons. case_decide as Hac; [subst c|done]. intros Hpre.
  specialize (IH p Hp Hpre). simpl rstrip.
  destruct (rstrip s) eqn:Hr.
  - apply prefix_empty_r in IH as ->.
    apply negb_true_iff in Ha. rewrite Ha, prefix_cons, decide_True; done.
  - rewrite prefix_cons, decide_True; done.
Qed.

Lemma str_in_rstrip a p s :
  spaceless (String a p) = true →
  str_in (String a p) s = true → str_in (String a p) (rstrip s) = true.
Proof.
  intros Hp. induction s as [|c s IH]; [done|].
  rewrite str_in_cons. intros [Hpre|Hin]%orb_true_iff.
  - apply (prefix_rstrip _ _ Hp) in Hpre.
    destruct (rstrip (String c s)); [done|].
    rewrite str_in_cons, Hpre. done.
  - specialize (IH Hin). simpl rstrip.
    destruct (rstrip s) eqn:Hr; [done|].
    rewrite str_in_cons, IH. apply orb_true_r.
Qed.

Lemma str_in_strip a p s :
  spaceless (String a p) = true →
  str_in (String a p) s = true → str_in (String a p) (strip s) = true.
Proof.
  intros Hp Hin. unfold strip. apply str_in_rstrip; [done|].
  apply str_in_lstrip; [|done].
  apply andb_true_iff in Hp as [Ha _]. by apply negb_true_iff.
Qed.

(** A bare integer holds no food keyword and is no continuation. *)

Lemma all_chars_impl (P Q : ascii → bool) s :
  (∀ c, P c = true → Q c = true) → all_chars P s = true → all_chars Q s = true.
Proof.
  intros HPQ. induction s as [|c s IH]; [done|]. simpl.
  rewrite !andb_true_iff. intros [? ?]. auto.
Qed.

Lemma at_end_skip_digits s :
  at_end (skip_digits s) = true → all_chars digit_or_newline s = true.
Proof.
  induction s as [|c s IH]; [done|]. simpl. unfold digit_or_newline at 1.
  destruct (is_digit c); [done|].
  destruct s; simpl; [|done]. intros ->. done.
Qed.

Lemma re_bare_int_chars s :
  re_bare_int s = true → all_chars digit_or_newline s = true.
Proof.
  destruct s as [|c s]; [done|]. simpl.
  intros [Hc Hs]%andb_true_iff. unfold digit_or_newline at 1. rewrite Hc.
  by apply at_end_skip_digits.
Qed.

Lemma str_in_first_char a p s :
  all_chars (fun c => negb (Ascii.eqb a (lower_char c))) s = true →
  str_in (String a p) (lower s) = false.
Proof.
  induction s as [|c s IH]; [done|]. simpl lower. simpl all_chars.
  intros [Hc Hs]%andb_true_iff.
  rewrite str_in_cons, prefix_cons, (IH Hs).
  case_decide as Heq; [|done].
  rewrite Heq, Ascii.eqb_refl in Hc. done.
Qed.

Lemma bare_int_no_keyword s :
  re_bare_int s = true → has_food_keyword s = false.
Proof.
  intros Hs%re_bare_int_chars. unfold has_food_keyword, food_keywords.
  simpl existsb.
  rewrite !str_in_first_char; [done|..];
    (eapply all_chars_impl; [|exact Hs]);
    intros c; each_char c; vm_compute; congruence.
Qed.

Lemma bare_int_not_continuation s : re_bare_int s = true → is_continuation s = false.
Proof.
  intros H. unfold is_continuation. rewrite H. simpl.
  by rewrite andb_false_r.
Qed.

(** ** The categorizer *)

Lemma categorize_meal_rules meal_name :
  categorize_meal meal_name = categorize_by_rules meal_name.
Proof.
  unfold categorize_by_rules, categorize_meal, category_rules, first_match, existsb.
  by rewrite !orb_false_r.
Qed.

Lemma categorize_meal_cases meal_name :
  categorize_meal meal_name ∈ category_rules.*2
  ∨ (categorize_meal meal_name = strip meal_name
     ∧ Forall (fun rule => Forall (fun keyword => ¬ mentions keyword meal_name) rule.1)
         category_rules).
Proof.
  unfold categorize_meal, mentions.
  destruct (str_in "beef" _ || str_in "beefy" _) eqn:Hbeef;
    [left; cbn; repeat constructor|].
  destruct (str_in "lentil" _) eqn:Hlentil; [left; cbn; repeat constructor|].
  destruct (str_in "chicken" _) eqn:Hchicken; [left; cbn; repeat constructor|].
  destruct (str_in "vegetarian" _ || str_in "veggie" _) eqn:Hveg;
    [left; cbn; repeat constructor|].
  destruct (str_in "fish" _) eqn:Hfish; [left; cbn; repeat constructor|].
  apply orb_false_iff in Hbeef as [? ?], Hveg as [? ?].
  right. split; [done|]. repeat constructor; simpl; congruence.
Qed.

Lemma categorize_meal_beef meal_name :
  mentions "beef" meal_name → categorize_meal meal_name = "Beef Meal".
Proof. unfold mentions, categorize_meal. by intros ->. Qed.

Lemma categorize_meal_chicken meal_name :
  mentions "chicken" meal_name →
  ¬ mentions "beef" meal_name → ¬ mentions "lentil" meal_name →
  categorize_meal meal_name = "Chicken Meal".
Proof.
  unfold mentions, categorize_meal. intros -> Hbeef Hlentil.
  pose proof (str_in_app_l "beef" "y" (lower meal_name)) as Hbeefy.
  change ("beef" +:+ "y") with "beefy" in Hbeefy.
  destruct (str_in "beef" _); [done|].
  destruct (str_in "beefy" _); [by destruct Hbeef; apply Hbeefy|].
  by destruct (str_in "lentil" _).
Qed.

(** C2, amended (priority of the categories).  [categorize_meal] is the
    first match of the ordered rule list Beef, Lentil, Chicken, Vegetarian,
    Fish on the lower-cased name, and the stripped name when no keyword
    occurs; a name with "beef" and "fish" is a Beef Meal, and a name with
    "chicken" and "fish" but neither "beef" nor "lentil" is a Chicken
    Meal. *)
Theorem categorize_meal_priority meal_name :
  categorize_meal meal_name = categorize_by_rules meal_name
  ∧ (categorize_meal meal_name ∈ category_rules.*2
     ∨ (categorize_meal meal_name = strip meal_name
        ∧ Forall (fun rule =>
                    Forall (fun keyword => ¬ mentions keyword meal_name) rule.1)
            category_rules))
  ∧ (mentions "beef" meal_name → mentions "fish" meal_name →
     categorize_meal meal_name = "Beef Meal")
  ∧ (mentions "chicken" meal_name → mentions "fish" meal_name →
     ¬ mentions "beef" meal_name → ¬ mentions "lentil" meal_name →
     categorize_meal meal_name = "Chicken Meal").
Proof.
  split; [apply categorize_meal_rules|].
  split; [apply categorize_meal_cases|].
  split.
  - intros Hbeef _. by apply categorize_meal_beef.
  - intros Hchicken _. by apply categorize_meal_chicken.
Qed.

(** C2, counterexample.  A name with "chicken" and "fish" that also
    holds "lentil" is a Lentil Meal, not a Chicken Meal. *)
Lemma chicken_fish_not_always_chicken :
  mentions "chicken" "Lentil Chicken Fish"
  ∧ mentions "fish" "Lentil Chicken Fish"
  ∧ categorize_meal "Lentil Chicken Fish" = "Lentil Meal"
  ∧ categorize_meal "Lentil Chicken Fish" ≠ "Chicken Meal".
Proof. repeat split; try reflexivity. vm_compute. discriminate. Qed.

(** ** One iteration of the loop *)

Lemma valid_quantity_test s :
  re_bare_int s && ((1 <=? py_int s) && (py_int s <=? 100)) = true
  ↔ valid_quantity s (py_int s).
Proof.
  unfold valid_quantity.
  rewrite !andb_true_iff, !Z.leb_le. tauto.
Qed.

Lemma no_quantity_test s :
  re_bare_int s && ((1 <=? py_int s) && (py_int s <=? 100)) = false
  ↔ no_quantity s.
Proof.
  rewrite <- not_true_iff_false, valid_quantity_test. unfold no_quantity.
  split.
  - intros H q Hq. apply H. destruct Hq as (? & <- & ?). done.
  - intros H Hq. exact (H _ Hq).
Qed.

Lemma valid_quantity_pos s q : valid_quantity s q → (0 <? q) = true.
Proof. intros (_ & _ & ?). apply Z.ltb_lt. lia. Qed.

Lemma py_range_split a b js1 j js2 :
  py_range a b = js1 ++ j :: js2 →
  (a <= j < b)%nat ∧ ∀ k, k ∈ js1 ↔ (a <= k < j)%nat.
Proof.
  unfold py_range. intros H.
  assert (Hlen : (length js1 < b - a)%nat).
  { apply (f_equal length) in H. rewrite length_seq, length_app, length_cons in H. lia. }
  assert (Hj : j = (a + length js1)%nat).
  { apply (f_equal (fun l => l !! length js1)) in H.
    rewrite lookup_seq_lt in H by done.
    rewrite list_lookup_middle in H by done. by simplify_eq. }
  assert (Hjs1 : js1 = seq a (length js1)).
  { apply (f_equal (take (length js1))) in H.
    rewrite take_app_length, take_seq, Nat.min_l in H by lia. done. }
  split; [lia|]. intros k. rewrite Hjs1 at 1. rewrite elem_of_seq. lia.
Qed.

Lemma elem_of_py_range a b j : j ∈ py_range a b ↔ (a <= j < b)%nat.
Proof. unfold py_range. rewrite elem_of_seq. lia. Qed.

Section Iteration.

Context (lines : list string).

Lemma scan_quantity_cons j js :
  scan_quantity lines (j :: js) =
  if re_bare_int (line_at lines j)
     && ((1 <=? py_int (line_at lines j)) && (py_int (line_at lines j) <=? 100))
  then py_int (line_at lines j) else scan_quantity lines js.
Proof.
  simpl. destruct (re_bare_int _); [|done].
  by destruct (_ && _).
Qed.

(** The [for] loop returns 0 when no visited line is a quantity line, and
    otherwise the value of the first one. *)
Lemma scan_quantity_spec js :
  (scan_quantity lines js = 0 ∧ ∀ j, j ∈ js → no_quantity (line_at lines j))
  ∨ (∃ js1 j js2, js = js1 ++ j :: js2
       ∧ valid_quantity (line_at lines j) (scan_quantity lines js)
       ∧ ∀ k, k ∈ js1 → no_quantity (line_at lines k)).
Proof.
  induction js as [|j js IH].
  - left. split; [done|]. intros j Hj. by apply elem_of_nil in Hj.
  - rewrite scan_quantity_cons.
    destruct (re_bare_int _ && _) eqn:Hj.
    + right. exists [], j, js. split; [done|]. split.
      * by apply valid_quantity_test.
      * intros k Hk. by apply elem_of_nil in Hk.
    + apply no_quantity_test in Hj.
      destruct IH as [[H0 Hall]|(js1 & j' & js2 & -> & Hv & Hbefore)].
      * left. split; [done|]. intros k [->|Hk]%elem_of_cons; auto.
      * right. exists (j :: js1), j', js2. split; [done|]. split; [done|].
        intros k [->|Hk]%elem_of_cons; auto.
Qed.

Lemma scan_quantity_range js :
  scan_quantity lines js = 0 ∨ 1 <= scan_quantity lines js <= 100.
Proof.
  destruct (scan_quantity_spec js) as [[? _]|(?&?&?&_&(_&_&?)&_)]; auto.
Qed.

Lemma find_quantity_spec i1 :
  (find_quantity lines i1 = 0
   ∧ ∀ j, in_window lines i1 j → no_quantity (line_at lines j))
  ∨ (∃ j, in_window lines i1 j
       ∧ valid_quantity (line_at lines j) (find_quantity lines i1)
       ∧ ∀ k, (i1 < k < j)%nat → no_quantity (line_at lines k)).
Proof.
  unfold find_quantity, in_window.
  destruct (scan_quantity_spec
              (py_range (i1 + 1) (Nat.min (i1 + 5) (length lines))))
    as [[H0 Hall]|(js1 & j & js2 & Hsplit & Hv & Hbefore)].
  - left. split; [done|]. intros j Hj. apply Hall, elem_of_py_range. lia.
  - right. apply py_range_split in Hsplit as [Hj Hjs1].
    exists j. split; [lia|]. split; [done|].
    intros k Hk. apply Hbefore, Hjs1. lia.
Qed.

Lemma find_quantity_next i :
  (S i < length lines)%nat →
  valid_quantity (line_at lines (S i)) (py_int (line_at lines (S i))) →
  find_quantity lines i = py_int (line_at lines (S i)).
Proof.
  intros Hlen Hv. unfold find_quantity, py_range.
  replace (Nat.min (i + 5) (length lines) - (i + 1))%nat
    with (S (Nat.min (i + 5) (length lines) - (i + 2))) by lia.
  replace (i + 1)%nat with (S i) by lia.
  rewrite <- cons_seq, scan_quantity_cons.
  apply valid_quantity_test in Hv. by rewrite Hv.
Qed.

Lemma loop_body_advances i : (i < fst (loop_body lines i))%nat.
Proof.
  unfold loop_body, name_continuation.
  repeat (case_match; simpl; simplify_eq; try lia).
Qed.

Lemma loop_body_meal i :
  is_noise (line_at lines i) = false →
  has_food_keyword (line_at lines i) = true →
  loop_body lines i =
  (S (name_continuation lines i).2,
   if 0 <? find_quantity lines (name_continuation lines i).2
   then Some {| name := (name_continuation lines i).1;
                quantity := find_quantity lines (name_continuation lines i).2 |}
   else None).
Proof.
  intros Hn Hk. unfold loop_body. rewrite Hn, Hk.
  destruct (name_continuation lines i) as [meal_name i1]. simpl.
  by destruct (0 <? _).
Qed.

Lemma loop_body_quantity i r :
  (loop_body lines i).2 = Some r → 1 <= quantity r <= 100.
Proof.
  unfold loop_body.
  destruct (is_noise _); [done|]. destruct (has_food_keyword _); [|done].
  destruct (name_continuation lines i) as [meal_name i1].
  destruct (0 <? _) eqn:Hq; [|done]. simpl. intros [= <-]. simpl.
  apply Z.ltb_lt in Hq. unfold find_quantity in *.
  destruct (scan_quantity_range
    (py_range (i1 + 1) (Nat.min (i1 + 5) (length lines)))); lia.
Qed.

Lemma inert_line i :
  is_noise (line_at lines i) = true ∨ has_food_keyword (line_at lines i) = false →
  loop_body lines i = (S i, None).
Proof.
  unfold loop_body. intros [->| ->]; [done|]. by destruct (is_noise _).
Qed.

Lemma quantity_line_inert i :
  re_bare_int (line_at lines i) = true → loop_body lines i = (S i, None).
Proof.
  intros H. unfold loop_body. rewrite (bare_int_no_keyword _ H).
  by destruct (is_noise _).
Qed.

(** The lookahead of one iteration.  At a candidate line that holds a
    food keyword, let [meal_name] be the name after the optional
    continuation and [i1] the cursor after it.  The iteration yields a
    record exactly when one of the four lines after [i1] is, once
    stripped, a bare integer with value in [1,100]; the record then
    carries [meal_name] and the value of the first such line, bare
    integers outside the range before it being passed over; with no such
    line it yields no record. *)
Lemma quantity_lookahead i :
  is_noise (line_at lines i) = false →
  has_food_keyword (line_at lines i) = true →
  let meal_name := (name_continuation lines i).1 in
  let i1 := (name_continuation lines i).2 in
  (∀ r, (loop_body lines i).2 = Some r ↔
     name r = meal_name ∧
     ∃ j, in_window lines i1 j
          ∧ valid_quantity (line_at lines j) (quantity r)
          ∧ ∀ k, (i1 < k < j)%nat → no_quantity (line_at lines k))
  ∧ ((loop_body lines i).2 = None ↔
     ∀ j, in_window lines i1 j → no_quantity (line_at lines j)).
Proof.
  intros Hn Hk meal_name i1.
  rewrite (loop_body_meal i Hn Hk). fold meal_name i1. simpl.
  destruct (find_quantity_spec i1)
    as [[H0 Hall]|(j & Hw & Hv & Hbefore)].
  - rewrite H0. simpl. split.
    + intros r. split; [done|]. intros (_ & j & Hw & Hv & _).
      destruct (Hall j Hw _ Hv).
    + done.
  - assert (Hpos : (0 <? find_quantity lines i1) = true).
    { apply Z.ltb_lt. destruct Hv as (_ & _ & ?). lia. }
    rewrite Hpos. split.
    + intros r. split.
      * intros [= <-]. simpl. eauto.
      * intros (Hname & j' & Hw' & Hv' & Hbefore').
        assert (¬ (j' < j)%nat) as Hge.
        { intros Hlt. apply (Hbefore j' ltac:(unfold in_window in *; lia) _ Hv'). }
        assert (¬ (j < j')%nat) as Hle.
        { intros Hlt. apply (Hbefore' j ltac:(unfold in_window in *; lia) _ Hv). }
        assert (j' = j) as -> by lia.
        destruct r as [n q]. simpl in *. f_equal; try done.
        destruct Hv as (_ & Hq & _), Hv' as (_ & Hq' & _). congruence.
    + split; [done|]. intros Hall. destruct (Hall j Hw _ Hv).
Qed.

(** C7 (running totals are noise).  A line holding "total" in any
    letter case, stripped or not, is noise: the iteration at that line
    yields no record and moves the cursor by one, food keyword or not. *)
Theorem total_line_is_noise i :
  mentions "total" (nth i lines EmptyString) →
  is_noise (line_at lines i) = true ∧ loop_body lines i = (S i, None).
Proof.
  unfold mentions. intros Ht.
  assert (Hn : is_noise (line_at lines i) = true).
  { unfold is_noise, line_at. rewrite lower_strip.
    rewrite (str_in_strip "t" "otal" _ eq_refl Ht). apply orb_true_r. }
  split; [done|]. unfold loop_body. by rewrite Hn.
Qed.

(** What the continuation test does for the seven words of line 62: such
    a next line is never merged; a non-empty next line that is neither a
    bare integer, nor a day/month label, nor one of them is merged; and
    the name takes at most one further line. *)
Lemma continuation_rule i :
  let next_line := line_at lines (i + 1) in
  (list_in next_line continuation_stop_words = true →
   name_continuation lines i = (line_at lines i, i))
  ∧ ((i + 1 < length lines)%nat →
     next_line ≠ EmptyString → re_bare_int next_line = false →
     re_day_month next_line = false →
     list_in next_line continuation_stop_words = false →
     name_continuation lines i
     = (line_at lines i +:+ " " +:+ next_line, (i + 1)%nat))
  ∧ (name_continuation lines i = (line_at lines i, i)
     ∨ name_continuation lines i
       = (line_at lines i +:+ " " +:+ next_line, (i + 1)%nat)).
Proof.
  intros next_line. unfold name_continuation, is_continuation.
  fold next_line. split; [|split].
  - intros ->. rewrite andb_false_r. by destruct (_ <? _)%nat.
  - intros Hlt Hne -> -> ->. apply Nat.ltb_lt in Hlt. rewrite Hlt.
    apply String.eqb_neq in Hne. by rewrite Hne.
  - destruct (_ <? _)%nat; [|by left]. destruct (_ && _); auto.
Qed.

End Iteration.

(** The lookahead passes over "150" and "Grade" and takes "7". *)
Lemma quantity_lookahead_example :
  (loop_body ["Beef Stew"; "150"; "Grade"; "7"] 0).2
  = Some {| name := "Beef Stew"; quantity := 7 |}.
Proof.
  apply (proj1 (quantity_lookahead ["Beef Stew"; "150"; "Grade"; "7"] 0
                  eq_refl eq_refl)).
  split; [reflexivity|]. exists 3%nat.
  split; [unfold in_window; simpl; lia|].
  split; [repeat split; vm_compute; discriminate|].
  intros k Hk q (Hre & Hint & Hrange).
  assert (Hcases : k = 1%nat ∨ k = 2%nat) by (simpl in Hk; lia).
  destruct Hcases as [-> | ->].
  - vm_compute in Hint. lia.
  - vm_compute in Hre. discriminate.
Defined.

(** Scenario 3: a page whose only line is "Pasta Total". *)
Lemma total_line_is_noise_witness :
  has_food_keyword (line_at ["Pasta Total"] 0) = true
  ∧ is_noise (line_at ["Pasta Total"] 0) = true
  ∧ loop_body ["Pasta Total"] 0 = (1%nat, None)
  ∧ extract_meals_from_lines ["Pasta Total"] = ∅
  ∧ page_annots
      (process_page {| page_text := "Pasta Total"; page_width := 600;
                       page_height := 800; page_annots := [] |}) = [].
Proof.
  split; [reflexivity|].
  split; [apply (total_line_is_noise ["Pasta Total"] 0); reflexivity|].
  split; [apply (total_line_is_noise ["Pasta Total"] 0); reflexivity|].
  split; vm_compute; reflexivity.
Defined.

(** C5 (the cycle label as a continuation).  "Cycle 5" is a stop-word of
    the noise test (line 45) but not of the continuation test (line 62):
    after a name line it is merged into the meal name. *)
Theorem cycle_label_is_merged :
  list_in "Cycle 5" skip_words = true
  ∧ list_in "Cycle 5" continuation_stop_words = false
  ∧ name_continuation ["Pasta"; "Cycle 5"; "12"] 0 = ("Pasta Cycle 5", 1%nat)
  ∧ extract_meals_from_lines ["Pasta"; "Cycle 5"; "12"]
    = {[ "Pasta Cycle 5" := 12 ]}.
Proof. vm_compute. repeat split; reflexivity. Qed.

(** ** The loop and its trace *)

Lemma while_loop_step lines i meal_counts :
  while_loop lines i meal_counts =
  if decide (i < length lines)%nat
  then while_loop lines (fst (loop_body lines i))
         (count_record (snd (loop_body lines i)) meal_counts)
  else meal_counts.
Proof.
  rewrite while_loop_equation_1. unfold while_loop_clause_1.
  destruct (lt_dec i (length lines)); case_decide; done.
Qed.

Lemma records_from_step lines i :
  records_from lines i =
  if decide (i < length lines)%nat
  then option_list (snd (loop_body lines i))
       ++ records_from lines (fst (loop_body lines i))
  else [].
Proof.
  rewrite records_from_equation_1. unfold records_from_clause_1.
  destruct (lt_dec i (length lines)); case_decide; done.
Qed.

Lemma aggregate_cons r rs c :
  aggregate (r :: rs) c
  = aggregate rs (add_count (categorize_meal (name r)) (quantity r) c).
Proof. done. Qed.

Lemma aggregate_app rs1 rs2 c :
  aggregate (rs1 ++ rs2) c = aggregate rs2 (aggregate rs1 c).
Proof. unfold aggregate. apply foldl_app. Qed.

Lemma count_record_aggregate r c :
  count_record r c = aggregate (option_list r) c.
Proof. by destruct r. Qed.

(** The loop started at cursor [i] folds the records met from [i] on. *)
Lemma while_loop_aggregate lines :
  ∀ k i c, (length lines - i <= k)%nat →
    while_loop lines i c = aggregate (records_from lines i) c.
Proof.
  induction k as [|k IH]; intros i c Hk;
    rewrite while_loop_step, records_from_step; case_decide; try done; try lia.
  rewrite aggregate_app, <- count_record_aggregate.
  apply IH. pose proof (loop_body_advances lines i). lia.
Qed.

Lemma extract_is_aggregate lines :
  extract_meals_from_lines lines = aggregate (meal_records lines) ∅.
Proof.
  unfold extract_meals_from_lines, meal_records.
  apply (while_loop_aggregate lines (length lines)). lia.
Qed.

Lemma records_from_quantity lines :
  ∀ k i r, (length lines - i <= k)%nat →
    r ∈ records_from lines i → 1 <= quantity r <= 100.
Proof.
  induction k as [|k IH]; intros i r Hk; rewrite records_from_step;
    case_decide; try lia; try (by intros ?%elem_of_nil).
  intros [Hr|Hr]%elem_of_app.
  - destruct (loop_body lines i).2 eqn:Hb; simpl in Hr.
    + apply list_elem_of_singleton in Hr as ->. by eapply loop_body_quantity.
    + by apply elem_of_nil in Hr.
  - eapply IH; [|done]. pose proof (loop_body_advances lines i). lia.
Qed.

Lemma meal_records_quantity lines r :
  r ∈ meal_records lines → 1 <= quantity r <= 100.
Proof. apply (records_from_quantity lines (length lines)). lia. Qed.

(** ** The lines the loop reaches *)

Lemma cursors_from_step lines i :
  cursors_from lines i =
  if decide (i < length lines)%nat
  then i :: cursors_from lines (fst (loop_body lines i))
  else [].
Proof.
  rewrite cursors_from_equation_1. unfold cursors_from_clause_1.
  destruct (lt_dec i (length lines)); case_decide; done.
Qed.

Lemma records_from_cursors lines :
  ∀ k i, (length lines - i <= k)%nat →
    records_from lines i
    = omap (fun j => (loop_body lines j).2) (cursors_from lines i).
Proof.
  induction k as [|k IH]; intros i Hk;
    rewrite records_from_step, cursors_from_step; case_decide; try done;
    try lia.
  rewrite IH by (pose proof (loop_body_advances lines i); lia).
  simpl. by destruct (loop_body lines i).2.
Qed.

Lemma loop_body_cursor lines i :
  (loop_body lines i).1
  = if takes_continuation lines i then (i + 2)%nat else (i + 1)%nat.
Proof.
  unfold loop_body, takes_continuation, name_continuation.
  destruct (is_noise _); simpl; [lia|].
  destruct (has_food_keyword _); simpl; [|lia].
  destruct (_ <? _)%nat; simpl.
  - destruct (is_continuation _); simpl; destruct (0 <? _); simpl; lia.
  - destruct (0 <? _); simpl; lia.
Qed.

Lemma cursors_from_bounds lines :
  ∀ k i x, (length lines - i <= k)%nat →
    x ∈ cursors_from lines i → (i <= x < length lines)%nat.
Proof.
  induction k as [|k IH]; intros i x Hk; rewrite cursors_from_step;
    case_decide; try lia; try (by intros ?%elem_of_nil).
  pose proof (loop_body_advances lines i) as Hadv.
  intros [->|Hx]%elem_of_cons; [lia|].
  apply IH in Hx; lia.
Qed.

(** From cursor [i] on, the loop reaches every line but those merged as
    a continuation at a reached line. *)
Lemma cursors_from_reached lines :
  ∀ k i x, (length lines - i <= k)%nat → (i <= x < length lines)%nat →
    x ∈ cursors_from lines i
    ↔ ¬ ∃ j, j ∈ cursors_from lines i ∧ x = (j + 1)%nat
             ∧ takes_continuation lines j = true.
Proof.
  induction k as [|k IH]; intros i x Hk Hx; [lia|].
  rewrite cursors_from_step, decide_True by lia.
  pose proof (loop_body_cursor lines i) as Hnext.
  pose proof (cursors_from_bounds lines (length lines)) as Hb.
  destruct (decide (x = i)) as [->|Hne].
  { split; [|intros _; by left].
    intros _ (j & [->|Hj]%elem_of_cons & Hxj & _); [lia|].
    apply Hb in Hj; [|lia]. pose proof (loop_body_advances lines i). lia. }
  destruct (takes_continuation lines i) eqn:Ht; rewrite Hnext.
  - destruct (decide (x = i + 1)%nat) as [->|Hne1].
    + split.
      * intros [?|Hin]%elem_of_cons; [lia|]. apply Hb in Hin; lia.
      * intros Hno. destruct Hno. exists i. split; [by left|done].
    + rewrite elem_of_cons, (IH (i + 2)%nat x) by lia. split.
      * intros [?|Hno]; [lia|]. intros (j & [->|Hj]%elem_of_cons & Hxj & Htj);
          [lia|]. apply Hno. eauto.
      * intros Hno. right. intros (j & Hj & Hxj & Htj). apply Hno.
        exists j. split; [by right|done].
  - rewrite elem_of_cons, (IH (i + 1)%nat x) by lia. split.
    + intros [?|Hno]; [lia|]. intros (j & [->|Hj]%elem_of_cons & Hxj & Htj).
      * congruence.
      * apply Hno. eauto.
    + intros Hno. right. intros (j & Hj & Hxj & Htj). apply Hno.
      exists j. split; [by right|done].
Qed.

(** C1, amended (quantity lookahead).  The mapping of a page is the
    aggregate of the records yielded at the lines the loop reaches, which
    are all the lines but those merged as the continuation of a reached
    name line.  At a reached candidate line that holds a food keyword,
    with [meal_name] the name after the optional continuation and [i1]
    the cursor after it, a record is yielded exactly when one of the four
    lines after [i1] is, once stripped, a bare integer with value in
    [1,100]; the record carries [meal_name] and the value of the first
    such line, bare integers outside the range before it being passed
    over; with no such line no record is yielded. *)
Theorem quantity_lookahead_on_page lines :
  meal_records lines
  = omap (fun i => (loop_body lines i).2) (cursor_positions lines)
  ∧ extract_meals_from_lines lines = aggregate (meal_records lines) ∅
  ∧ (∀ x, (x < length lines)%nat →
       x ∈ cursor_positions lines
       ↔ ¬ ∃ j, j ∈ cursor_positions lines ∧ x = (j + 1)%nat
                ∧ takes_continuation lines j = true)
  ∧ ∀ i, i ∈ cursor_positions lines →
      is_noise (line_at lines i) = false →
      has_food_keyword (line_at lines i) = true →
      let meal_name := (name_continuation lines i).1 in
      let i1 := (name_continuation lines i).2 in
      (∀ r, (loop_body lines i).2 = Some r ↔
         name r = meal_name ∧
         ∃ j, in_window lines i1 j
              ∧ valid_quantity (line_at lines j) (quantity r)
              ∧ ∀ k, (i1 < k < j)%nat → no_quantity (line_at lines k))
      ∧ ((loop_body lines i).2 = None ↔
         ∀ j, in_window lines i1 j → no_quantity (line_at lines j)).
Proof.
  split; [apply (records_from_cursors lines (length lines)); lia|].
  split; [apply extract_is_aggregate|].
  split.
  - intros x Hx. apply (cursors_from_reached lines (length lines)); lia.
  - intros i _. apply quantity_lookahead.
Qed.

(** A page of four lines: the loop reaches the name line "Beef Stew",
    the lookahead passes over "150" and "Grade" and takes "7", and this
    is the page's only record. *)
Lemma quantity_lookahead_on_page_witness :
  let lines := ["Beef Stew"; "150"; "Grade"; "7"] in
  0%nat ∈ cursor_positions lines
  ∧ (loop_body lines 0).2 = Some {| name := "Beef Stew"; quantity := 7 |}
  ∧ meal_records lines = [{| name := "Beef Stew"; quantity := 7 |}]
  ∧ extract_meals_from_lines lines = {[ "Beef Meal" := 7 ]}.
Proof.
  intros lines.
  destruct (quantity_lookahead_on_page lines)
    as (Hrecords & Hextract & Hreached & Hlookahead).
  assert (Hcursor : 0%nat ∈ cursor_positions lines).
  { apply Hreached; [simpl; lia|]. intros (j & _ & Hj & _). lia. }
  split; [done|]. split.
  - apply (proj1 (Hlookahead 0%nat Hcursor eq_refl eq_refl)).
    split; [reflexivity|]. exists 3%nat.
    split; [unfold in_window; simpl; lia|].
    split; [repeat split; vm_compute; discriminate|].
    intros k Hk q (Hre & Hint & Hrange).
    assert (Hcases : k = 1%nat ∨ k = 2%nat) by (simpl in Hk; lia).
    destruct Hcases as [-> | ->].
    + vm_compute in Hint. lia.
    + vm_compute in Hre. discriminate.
  - split; [rewrite Hrecords; vm_compute; reflexivity|].
    rewrite Hextract, Hrecords. vm_compute. reflexivity.
Defined.

(** C1, counterexample.  On the page of scenario 1 the line "Rice" is a
    candidate with a food keyword and the line after it is the quantity
    45, but the loop never reaches it: it is merged into "Chicken Curry",
    and the page has no record of the name "Rice". *)
Lemma merged_keyword_line_gives_no_record :
  let lines := ["Chicken Curry"; "Rice"; "45"; "Date"; "01 Jan"] in
  is_noise (line_at lines 1) = false
  ∧ has_food_keyword (line_at lines 1) = true
  ∧ name_continuation lines 1 = ("Rice", 1%nat)
  ∧ in_window lines 1 2
  ∧ valid_quantity (line_at lines 2) 45
  ∧ (loop_body lines 1).2 = Some {| name := "Rice"; quantity := 45 |}
  ∧ cursor_positions lines = [0; 2; 3; 4]%nat
  ∧ meal_records lines = [{| name := "Chicken Curry Rice"; quantity := 45 |}]
  ∧ extract_meals_from_lines lines = {[ "Chicken Meal" := 45 ]}.
Proof.
  vm_compute. repeat split; try reflexivity; try lia; discriminate.
Qed.

(** ** Aggregation *)

Lemma add_count_lookup k q c k' :
  add_count k q c !! k' =
  if decide (k = k') then Some (default 0 (c !! k) + q) else c !! k'.
Proof. unfold add_count. apply lookup_insert. Qed.

Lemma add_count_comm k1 q1 k2 q2 c :
  add_count k1 q1 (add_count k2 q2 c) = add_count k2 q2 (add_count k1 q1 c).
Proof.
  apply map_eq. intros k. rewrite !add_count_lookup.
  repeat case_decide; simplify_eq; simpl; try done. f_equal. lia.
Qed.

Lemma category_sum_cons k r rs :
  category_sum k (r :: rs) =
  (if decide (categorize_meal (name r) = k) then quantity r else 0)
  + category_sum k rs.
Proof.
  unfold category_sum. rewrite filter_cons.
  case_decide; csimpl; lia.
Qed.

Lemma aggregate_lookup_sum rs : ∀ c k,
  default 0 (aggregate rs c !! k) = default 0 (c !! k) + category_sum k rs.
Proof.
  induction rs as [|r rs IH]; intros c k.
  - unfold category_sum. simpl. lia.
  - change (aggregate (r :: rs) c)
      with (aggregate rs (add_count (categorize_meal (name r)) (quantity r) c)).
    rewrite IH, add_count_lookup, category_sum_cons.
    case_decide; simplify_eq; simpl; lia.
Qed.

Lemma aggregate_lookup_is_Some rs : ∀ c k,
  is_Some (aggregate rs c !! k) ↔
  is_Some (c !! k) ∨ ∃ r, r ∈ rs ∧ categorize_meal (name r) = k.
Proof.
  induction rs as [|r rs IH]; intros c k.
  - simpl. split; [auto|]. intros [?|(r & Hr & _)]; [done|]. by apply elem_of_nil in Hr.
  - change (aggregate (r :: rs) c)
      with (aggregate rs (add_count (categorize_meal (name r)) (quantity r) c)).
    rewrite IH, add_count_lookup. split.
    + intros [H|(r' & Hr' & Hk)].
      * case_decide; [right; exists r; split; [left|done] | by left].
      * right. exists r'. split; [by right|done].
    + intros [H|(r' & Hr' & Hk)].
      * left. case_decide; [done|done].
      * apply elem_of_cons in Hr' as [->|Hr'].
        -- left. rewrite decide_True; done.
        -- right. eauto.
Qed.

Lemma aggregate_at_least_one rs : ∀ c,
  (∀ k v, c !! k = Some v → 1 <= v) →
  (∀ r, r ∈ rs → 1 <= quantity r) →
  ∀ k v, aggregate rs c !! k = Some v → 1 <= v.
Proof.
  induction rs as [|r rs IH]; intros c Hc Hrs; [done|].
  change (aggregate (r :: rs) c)
    with (aggregate rs (add_count (categorize_meal (name r)) (quantity r) c)).
  apply IH.
  - intros k v. rewrite add_count_lookup. case_decide; [|by apply Hc].
    intros [= <-]. assert (1 <= quantity r) by (apply Hrs; left).
    destruct (c !! categorize_meal (name r)) as [v0|] eqn:Hv0; simpl; [|lia].
    apply Hc in Hv0. lia.
  - intros r' Hr'. apply Hrs. by right.
Qed.

Lemma aggregate_perm rs1 rs2 :
  rs1 ≡ₚ rs2 → ∀ c, aggregate rs1 c = aggregate rs2 c.
Proof.
  induction 1 as [|r rs1 rs2 _ IH|r1 r2 rs|rs1 rs2 rs3 _ IH1 _ IH2]; intros c.
  - done.
  - rewrite !aggregate_cons. apply IH.
  - rewrite !aggregate_cons. by rewrite add_count_comm.
  - by rewrite IH1.
Qed.

(** C3 (totals are sums over the records).  The mapping returned for a
    page has each category once; a category is a key exactly when some
    record of the page falls into it, and its value (0 when absent) is the
    sum of the quantities of those records. *)
Theorem page_totals_sum_of_records lines :
  NoDup (map_to_list (extract_meals_from_lines lines)).*1
  ∧ ∀ category,
      (is_Some (extract_meals_from_lines lines !! category)
       ↔ ∃ r, r ∈ meal_records lines ∧ categorize_meal (name r) = category)
      ∧ default 0 (extract_meals_from_lines lines !! category)
        = category_sum category (meal_records lines).
Proof.
  split; [apply NoDup_fst_map_to_list|].
  intros category. rewrite extract_is_aggregate. split.
  - rewrite aggregate_lookup_is_Some, lookup_empty.
    split; [|by right]. intros [[? [=]]|?]; done.
  - by rewrite aggregate_lookup_sum, lookup_empty.
Qed.

(** C10 (no zero total).  Every value of the mapping returned for a
    page is at least 1. *)
Theorem totals_at_least_one lines category total :
  extract_meals_from_lines lines !! category = Some total → 1 <= total.
Proof.
  rewrite extract_is_aggregate. apply aggregate_at_least_one.
  - intros k v. by rewrite lookup_empty.
  - intros r Hr. by apply meal_records_quantity in Hr as [? _].
Qed.

Lemma totals_at_least_one_witness :
  extract_meals_from_lines ["Beefy Stew"; "12"] !! "Beef Meal" = Some 12
  ∧ 1 <= 12.
Proof.
  assert (H : extract_meals_from_lines ["Beefy Stew"; "12"] !! "Beef Meal"
              = Some 12) by (vm_compute; reflexivity).
  split; [exact H|].
  exact (totals_at_least_one ["Beefy Stew"; "12"] "Beef Meal" 12 H).
Defined.

(** C9 (one quantity line, two records).  There is a page with a single
    bare-integer line whose value is the quantity of two records and is
    added to two category totals. *)
Theorem shared_quantity_line :
  ∃ lines,
    List.filter (fun l => re_bare_int (strip l)) lines = ["5"]
    ∧ meal_records lines
      = [ {| name := "Beef Stew"; quantity := 5 |};
          {| name := "Fish Pie"; quantity := 5 |} ]
    ∧ extract_meals_from_lines lines
      = {[ "Beef Meal" := 5; "Fish Meal" := 5 ]}.
Proof.
  exists ["Beef Stew"; "Grade"; "Fish Pie"; "5"].
  vm_compute. repeat split; reflexivity.
Qed.

(** ** Pages made of self-contained blocks *)

Lemma line_at_app pre rest k :
  line_at (pre ++ rest) (length pre + k) = strip (nth k rest EmptyString).
Proof. unfold line_at. by rewrite app_nth2_plus. Qed.

(** One segment at the cursor: the loop passes it and counts its record. *)
Lemma while_loop_segment pre s rest c :
  well_formed s →
  while_loop (pre ++ segment_lines s ++ rest) (length pre) c
  = while_loop (pre ++ segment_lines s ++ rest)
      (length pre + length (segment_lines s))
      (count_record (segment_record s) c).
Proof.
  set (lines := pre ++ segment_lines s ++ rest).
  assert (Hat : ∀ k, line_at lines (length pre + k)
                     = strip (nth k (segment_lines s ++ rest) EmptyString)).
  { intros k. apply line_at_app. }
  assert (Hlen : length lines
                 = (length pre + length (segment_lines s) + length rest)%nat).
  { unfold lines. rewrite !length_app. lia. }
  destruct s as [l|n [cont|] q]; simpl in Hat, Hlen |- *.
  - intros Hl. rewrite while_loop_step, decide_True by lia.
    rewrite inert_line.
    + simpl. f_equal. lia.
    + specialize (Hat 0%nat). rewrite Nat.add_0_r in Hat. by rewrite Hat.
  - intros (Hn & Hk & Hc & Hq).
    pose proof (Hat 0%nat) as H0. rewrite Nat.add_0_r in H0. simpl in H0.
    pose proof (Hat 1%nat) as H1. simpl in H1.
    pose proof (Hat 2%nat) as H2. simpl in H2.
    assert (Hnc : name_continuation lines (length pre)
                  = (strip n +:+ " " +:+ strip cont, (length pre + 1)%nat)).
    { unfold name_continuation. rewrite H0, H1, Hc.
      destruct (length pre + 1 <? length lines)%nat eqn:Hlt; [done|].
      apply Nat.ltb_ge in Hlt. lia. }
    assert (Hfq : find_quantity lines (length pre + 1) = py_int (strip q)).
    { replace (length pre + 2)%nat with (S (length pre + 1)) in H2 by lia.
      rewrite find_quantity_next; [by rewrite H2 | lia | by rewrite H2]. }
    rewrite while_loop_step, decide_True by lia.
    rewrite loop_body_meal by (by rewrite H0).
    rewrite Hnc. simpl. rewrite Hfq, (valid_quantity_pos _ _ Hq).
    rewrite while_loop_step, decide_True by lia.
    replace (S (length pre + 1)) with (length pre + 2)%nat by lia.
    rewrite quantity_line_inert by (rewrite H2; apply Hq).
    simpl. f_equal. lia.
  - intros (Hn & Hk & _ & Hq).
    pose proof (Hat 0%nat) as H0. rewrite Nat.add_0_r in H0. simpl in H0.
    pose proof (Hat 1%nat) as H1. simpl in H1.
    assert (Hnc : name_continuation lines (length pre)
                  = (strip n, length pre)).
    { unfold name_continuation. rewrite H0, H1.
      rewrite bare_int_not_continuation by apply Hq.
      by destruct (length pre + 1 <? length lines)%nat. }
    assert (Hfq : find_quantity lines (length pre) = py_int (strip q)).
    { replace (length pre + 1)%nat with (S (length pre)) in H1 by lia.
      rewrite find_quantity_next; [by rewrite H1 | lia | by rewrite H1]. }
    rewrite while_loop_step, decide_True by lia.
    rewrite loop_body_meal by (by rewrite H0).
    rewrite Hnc. simpl. rewrite Hfq, (valid_quantity_pos _ _ Hq).
    rewrite while_loop_step, decide_True by lia.
    replace (S (length pre)) with (length pre + 1)%nat by lia.
    rewrite quantity_line_inert by (rewrite H1; apply Hq).
    simpl. f_equal. lia.
Qed.

Lemma while_loop_segments segments :
  Forall well_formed segments →
  ∀ pre c,
    while_loop (pre ++ page_of segments) (length pre) c
    = aggregate (omap segment_record segments) c.
Proof.
  induction 1 as [|s segments Hs _ IH]; intros pre c.
  - unfold page_of. simpl. rewrite while_loop_step, decide_False; [done|].
    rewrite length_app. simpl. lia.
  - unfold page_of. rewrite fmap_cons. simpl concat.
    fold (page_of segments).
    rewrite while_loop_segment by done.
    rewrite <- length_app, (assoc (++) pre), IH.
    rewrite count_record_aggregate.
    destruct (segment_record s) eqn:Hr; simpl; by rewrite Hr.
Qed.

Lemma extract_page_of segments :
  Forall well_formed segments →
  extract_meals_from_lines (page_of segments)
  = aggregate (omap segment_record segments) ∅.
Proof.
  intros H. apply (while_loop_segments segments H []).
Qed.

(** C6, amended (swapping meal blocks).  On a page made of lines that
    start no record and of self-contained meal blocks (a candidate name
    line with a food keyword, at most one continuation line, then at once
    a quantity line with value in [1,100]), exchanging two meal blocks
    leaves the totals of [extract_meals_from_lines] unchanged. *)
Theorem swap_meal_blocks before between after n1 c1 q1 n2 c2 q2 :
  Forall well_formed
    (before ++ Meal n1 c1 q1 :: between ++ Meal n2 c2 q2 :: after) →
  extract_meals_from_lines
    (page_of (before ++ Meal n1 c1 q1 :: between ++ Meal n2 c2 q2 :: after))
  = extract_meals_from_lines
    (page_of (before ++ Meal n2 c2 q2 :: between ++ Meal n1 c1 q1 :: after)).
Proof.
  intros Hwf.
  assert (Hperm : before ++ Meal n2 c2 q2 :: between ++ Meal n1 c1 q1 :: after
                  ≡ₚ before ++ Meal n1 c1 q1 :: between ++ Meal n2 c2 q2 :: after).
  { apply Permutation_app_head.
    rewrite !Permutation_middle, (Permutation_swap (Meal n2 c2 q2)). done. }
  rewrite !extract_page_of; [|by rewrite Hperm|done].
  apply aggregate_perm. by rewrite Hperm.
Qed.

Lemma swap_meal_blocks_witness :
  extract_meals_from_lines
    ["Date"; "Beef Stew"; "5"; "Grade"; "Fish Pie"; "Deluxe"; "7"]
  = extract_meals_from_lines
    ["Date"; "Fish Pie"; "Deluxe"; "7"; "Grade"; "Beef Stew"; "5"].
Proof.
  apply (swap_meal_blocks [Filler "Date"] [Filler "Grade"] []
           "Beef Stew" None "5" "Fish Pie" (Some "Deluxe") "7").
  repeat constructor; try reflexivity; vm_compute; discriminate.
Defined.

(** C6, counterexample.  The lookahead of "Pasta", which has no quantity
    line of its own, reaches the quantity line of the next block: after
    the swap of the blocks of "Beef Stew" and "Fish Pie" its total is 7
    instead of 5. *)
Lemma swap_changes_totals :
  extract_meals_from_lines
    ["Pasta"; "Grade"; "Beef Stew"; "5"; "Date"; "Fish Pie"; "7"]
  = {[ "Pasta" := 5; "Beef Meal" := 5; "Fish Meal" := 7 ]}
  ∧ extract_meals_from_lines
      ["Pasta"; "Grade"; "Fish Pie"; "7"; "Date"; "Beef Stew"; "5"]
    = {[ "Pasta" := 7; "Beef Meal" := 5; "Fish Meal" := 7 ]}
  ∧ extract_meals_from_lines
      ["Pasta"; "Grade"; "Beef Stew"; "5"; "Date"; "Fish Pie"; "7"]
    ≠ extract_meals_from_lines
      ["Pasta"; "Grade"; "Fish Pie"; "7"; "Date"; "Beef Stew"; "5"].
Proof.
  split; [vm_compute; reflexivity|]. split; [vm_compute; reflexivity|].
  intros H. apply (f_equal (fun m => m !! "Pasta")) in H.
  vm_compute in H. discriminate.
Qed.

(** ** The layout of the totals *)

Lemma ascii_compare_lt_trans a b c :
  Ascii.compare a b = Lt → Ascii.compare b c = Lt → Ascii.compare a c = Lt.
Proof.
  unfold Ascii.compare. rewrite !N.compare_lt_iff. apply N.lt_trans.
Qed.

Lemma str_lt_trans s1 : ∀ s2 s3, str_lt s1 s2 → str_lt s2 s3 → str_lt s1 s3.
Proof.
  unfold str_lt.
  induction s1 as [|a s1 IH]; intros [|b s2] [|c s3]; simpl; try done.
  destruct (Ascii.compare a b) eqn:Hab; try done;
    destruct (Ascii.compare b c) eqn:Hbc; try done.
  - apply Ascii.compare_eq_iff in Hab as ->. rewrite Hbc. apply IH.
  - apply Ascii.compare_eq_iff in Hab as ->. by rewrite Hbc.
  - apply Ascii.compare_eq_iff in Hbc as <-. by rewrite Hab.
  - by rewrite (ascii_compare_lt_trans _ _ _ Hab Hbc).
Qed.

Lemma str_compare_refl s : String.compare s s = Eq.
Proof.
  induction s as [|a s IH]; [done|]. simpl.
  unfold Ascii.compare. by rewrite N.compare_refl.
Qed.

Lemma item_le_cases a b :
  item_le a b ↔ str_lt a.1 b.1 ∨ (a.1 = b.1 ∧ a.2 <= b.2).
Proof.
  unfold item_le, item_leb, str_lt.
  destruct (String.compare a.1 b.1) eqn:Hc.
  - apply String.compare_eq_iff in Hc. rewrite Is_true_true, Z.leb_le.
    split; [auto|]. by intros [?|[_ ?]].
  - split; [auto|done].
  - split; [done|]. intros [?|[Heq _]]; [done|].
    rewrite Heq, str_compare_refl in Hc. done.
Qed.

#[local] Instance item_le_total : Total item_le.
Proof.
  intros a b. rewrite !item_le_cases. unfold str_lt.
  rewrite (String.compare_antisym a.1 b.1).
  destruct (String.compare b.1 a.1) eqn:Hc; simpl.
  - apply String.compare_eq_iff in Hc.
    destruct (Z.le_ge_cases a.2 b.2); [left|right]; right; done.
  - right. by left.
  - left. by left.
Qed.

#[local] Instance item_le_trans : Transitive item_le.
Proof.
  intros a b c. rewrite !item_le_cases.
  intros [Hab|[Hab ?]] [Hbc|[Hbc ?]].
  - left. by eapply str_lt_trans.
  - left. by rewrite <- Hbc.
  - left. by rewrite Hab.
  - right. split; [congruence|lia].
Qed.

Lemma sorted_items_perm (meal_totals : gmap string Z) :
  sorted_items meal_totals ≡ₚ map_to_list meal_totals.
Proof. apply merge_sort_Permutation. Qed.

Lemma sorted_items_keys (meal_totals : gmap string Z) :
  StronglySorted str_lt (sorted_items meal_totals).*1.
Proof.
  assert (Hnd : NoDup (sorted_items meal_totals).*1).
  { rewrite sorted_items_perm. apply NoDup_fst_map_to_list. }
  assert (Hs : StronglySorted item_le (sorted_items meal_totals)).
  { apply StronglySorted_merge_sort; apply _. }
  induction Hs as [|a l Hs IH Ha]; [constructor|].
  rewrite fmap_cons in Hnd. apply NoDup_cons in Hnd as [Hnotin Hnd].
  rewrite fmap_cons. constructor; [by apply IH|].
  apply Forall_fmap, Forall_forall. intros b Hb.
  rewrite Forall_forall in Ha. pose proof (Ha _ Hb) as Hab.
  apply item_le_cases in Hab.
  destruct Hab as [?|[Heq _]]; [done|].
  destruct Hnotin. rewrite Heq. by apply list_elem_of_fmap_2.
Qed.

Lemma sorted_items_length (meal_totals : gmap string Z) :
  length (sorted_items meal_totals) = size meal_totals.
Proof. by rewrite sorted_items_perm, length_map_to_list. Qed.

Lemma sorted_items_lookup (meal_totals : gmap string Z) i k v :
  sorted_items meal_totals !! i = Some (k, v) → meal_totals !! k = Some v.
Proof.
  intros H%list_elem_of_lookup_2. rewrite sorted_items_perm in H.
  by apply elem_of_map_to_list.
Qed.

Lemma Qnat_S n : (Qnat (S n) == Qnat n + 1)%Q.
Proof. unfold Qnat. rewrite Nat2Z.inj_succ, <- Z.add_1_r, inject_Z_plus. reflexivity. Qed.

Lemma Qnat_nonneg n : (0 <= Qnat n)%Q.
Proof. unfold Qnat. change 0%Q with (inject_Z 0). rewrite <- Zle_Qle. lia. Qed.

Lemma Qnat_le n m : (n <= m)%nat → (Qnat n <= Qnat m)%Q.
Proof. unfold Qnat. rewrite <- Zle_Qle. lia. Qed.

Lemma Qnat_times n k : (inject_Z (Z.of_nat n * k) == Qnat n * inject_Z k)%Q.
Proof. unfold Qnat. by rewrite inject_Z_mult. Qed.

(** C4 (layout of the totals).  [add_totals_to_page] appends one block
    per entry of the mapping, in increasing order of the category names;
    block [i] of [n] has the text "<category> Total: <sum>",
    [y_top = page_height - 90 - n*22 + i*22], [y_bottom = y_top + 22],
    [x_left = (page_width - 9.6*len(text))/2] and
    [x_right = x_left + 9.6*len(text)]; consecutive blocks abut, the last
    one ends at [page_height - 90], and when [page_height >= 90 + n*22]
    every block lies within [0, page_height]. *)
Theorem totals_layout (page : Page) (meal_totals : gmap string Z) :
  let n := size meal_totals in
  let w := page_width page in
  let h := page_height page in
  let blocks := totals_blocks w h meal_totals in
  page_annots (add_totals_to_page page meal_totals) = page_annots page ++ blocks
  ∧ length blocks = n
  ∧ sorted_items meal_totals ≡ₚ map_to_list meal_totals
  ∧ StronglySorted str_lt (sorted_items meal_totals).*1
  ∧ ∀ i blk, blocks !! i = Some blk →
      ∃ category total,
        sorted_items meal_totals !! i = Some (category, total)
        ∧ meal_totals !! category = Some total
        ∧ text blk = category +:+ " Total: " +:+ pretty total
        ∧ (y_top (rect blk) == h - 90 - Qnat n * 22 + Qnat i * 22
           ∧ y_bottom (rect blk) == y_top (rect blk) + 22
           ∧ x_left (rect blk)
             == (w - (96 # 10) * Qnat (String.length (text blk))) / 2
           ∧ x_right (rect blk)
             == x_left (rect blk) + (96 # 10) * Qnat (String.length (text blk))
           ∧ (∀ blk', blocks !! S i = Some blk' →
                y_bottom (rect blk) == y_top (rect blk'))
           ∧ (S i = n → y_bottom (rect blk) == h - 90)
           ∧ (90 + Qnat n * 22 <= h →
                0 <= y_top (rect blk) ∧ y_bottom (rect blk) <= h))%Q.
Proof.
  intros n w h blocks.
  split; [done|].
  split; [unfold blocks, totals_blocks; by rewrite length_imap, sorted_items_length|].
  split; [apply sorted_items_perm|].
  split; [apply sorted_items_keys|].
  intros i blk Hblk. unfold blocks, totals_blocks in *.
  rewrite sorted_items_length in *. fold n in Hblk |- *.
  rewrite list_lookup_imap in Hblk.
  destruct (sorted_items meal_totals !! i) as [[category total]|] eqn:Hi;
    [|done].
  simpl in Hblk. injection Hblk as <-.
  exists category, total. split; [done|].
  split; [by eapply sorted_items_lookup|].
  split; [done|]. simpl.
  assert (Hlt : (i < n)%nat).
  { unfold n. rewrite <- sorted_items_length. by eapply lookup_lt_Some. }
  pose proof (Qnat_nonneg i) as Hi0.
  pose proof (Qnat_le (S i) n Hlt) as Hin. rewrite Qnat_S in Hin.
  rewrite !Qnat_times. change (inject_Z line_height) with 22%Q.
  change (inject_Z 90) with 90%Q.
  split; [ring|]. split; [ring|]. split; [unfold Qnat; field|].
  split; [unfold Qnat; ring|].
  split.
  { intros blk'. rewrite list_lookup_imap.
    destruct (sorted_items meal_totals !! S i) as [[category' total']|];
      [|done].
    simpl. intros [= <-]. simpl. rewrite !Qnat_times, Qnat_S.
    change (inject_Z line_height) with 22%Q. ring. }
  split.
  { intros <-. rewrite Qnat_S. ring. }
  intros Hh. split; lra.
Qed.

(** ** Documents *)

(** C8 (pages without totals).  [process_pdf] handles every page of the
    document; a page whose mapping is empty is left as it was (no block
    is added, [add_totals_to_page] is not run), any other page gets its
    blocks. *)
Theorem process_pdf_empty_page doc n page :
  doc !! n = Some page →
  length (process_pdf doc) = length doc
  ∧ process_pdf doc !! n = Some (process_page page)
  ∧ (extract_meals_from_page page = ∅ → process_page page = page)
  ∧ (extract_meals_from_page page ≠ ∅ →
     process_page page
     = add_totals_to_page page (extract_meals_from_page page)).
Proof.
  intros Hn. unfold process_pdf.
  split; [apply length_map|].
  split; [change (map process_page doc) with (process_page <$> doc);
          by rewrite list_lookup_fmap, Hn|].
  unfold process_page. split.
  - intros ->. by rewrite map_size_empty.
  - intros Hne. destruct (size _ =? 0)%nat eqn:Hs; [|done].
    apply Nat.eqb_eq, map_size_empty_iff in Hs. done.
Qed.

Lemma process_pdf_empty_page_witness :
  let empty_page := {| page_text := "Pasta Total"; page_width := 600;
                       page_height := 800; page_annots := [] |} in
  let meal_page := {| page_text := "Beefy Stew" +:+ String (chr 10) "12";
                      page_width := 600; page_height := 800;
                      page_annots := [] |} in
  extract_meals_from_page empty_page = ∅
  ∧ process_pdf [empty_page; meal_page] !! 0%nat = Some empty_page
  ∧ (fun page => map text (page_annots page))
      <$> process_pdf [empty_page; meal_page] !! 1%nat
    = Some ["Beef Meal Total: 12"].
Proof.
  intros empty_page meal_page.
  assert (Hempty : extract_meals_from_page empty_page = ∅)
    by (vm_compute; reflexivity).
  destruct (process_pdf_empty_page [empty_page; meal_page] 0 empty_page eq_refl)
    as (_ & Hpage & Hsame & _).
  split; [exact Hempty|].
  split; [by rewrite Hpage, (Hsame Hempty)|].
  vm_compute. reflexivity.
Defined.

(** ** White space at the ends of a line *)

Lemma lstrip_head s :
  lstrip s = EmptyString
  ∨ ∃ c s', lstrip s = String c s' ∧ is_space c = false.
Proof.
  induction s as [|c s IH]; [by left|]. simpl.
  destruct (is_space c) eqn:Hc; [done|]. right. eauto.
Qed.

Lemma lstrip_nonspace c s : is_space c = false → lstrip (String c s) = String c s.
Proof. intros H. simpl. by rewrite H. Qed.

Lemma rstrip_cons_nonspace c s :
  is_space c = false → ∃ r, rstrip (String c s) = String c r.
Proof. intros H. simpl. destruct (rstrip s); rewrite ?H; eauto. Qed.

Lemma rstrip_idemp s : rstrip (rstrip s) = rstrip s.
Proof.
  induction s as [|c s IH]; [done|]. simpl.
  destruct (rstrip s) as [|a r] eqn:Hr.
  - destruct (is_space c) eqn:Hc; [done|]. simpl. by rewrite Hc.
  - change (rstrip (String c (String a r)))
      with (match rstrip (String a r) with
            | EmptyString => if is_space c then EmptyString else String c EmptyString
            | r' => String c r'
            end).
    by rewrite IH.
Qed.

Lemma lstrip_strip s : lstrip (strip s) = strip s.
Proof.
  unfold strip. destruct (lstrip_head s) as [->|(c & s' & -> & Hc)]; [done|].
  destruct (rstrip_cons_nonspace c s' Hc) as [r ->]. by apply lstrip_nonspace.
Qed.

Lemma strip_idemp s : strip (strip s) = strip s.
Proof.
  unfold strip at 1. rewrite lstrip_strip. unfold strip. apply rstrip_idemp.
Qed.

Lemma strip_empty : strip EmptyString = EmptyString.
Proof. done. Qed.

Lemma stripped_head c s : stripped (String c s) → is_space c = false.
Proof.
  unfold stripped. intros H. destruct (is_space c) eqn:Hc; [|done].
  pose proof (lstrip_strip (String c s)) as Hl. rewrite H in Hl.
  simpl in Hl. rewrite Hc in Hl.
  apply (f_equal String.length) in Hl.
  assert (Hle : ∀ t, (String.length (lstrip t) <= String.length t)%nat).
  { induction t as [|a t IHt]; simpl; [lia|]. destruct (is_space a); simpl; lia. }
  specialize (Hle s). simpl in Hl. lia.
Qed.

Lemma stripped_rstrip s : stripped s → rstrip s = s.
Proof.
  unfold stripped. intros H. rewrite <- H at 1. unfold strip.
  rewrite rstrip_idemp. exact H.
Qed.

Lemma rstrip_app x s :
  rstrip s = s → s ≠ EmptyString → rstrip (x +:+ s) = x +:+ s.
Proof.
  intros Hs Hne. induction x as [|c x IH]; [done|].
  change (String c x +:+ s) with (String c (x +:+ s)). simpl. rewrite IH.
  destruct (x +:+ s) eqn:Hx; [|reflexivity].
  destruct x; [destruct Hne; exact Hx|discriminate Hx].
Qed.

Lemma str_app_assoc (a b c : string) : (a +:+ b) +:+ c = a +:+ b +:+ c.
Proof.
  induction a as [|d a IH]; [done|].
  change (String d ((a +:+ b) +:+ c) = String d (a +:+ b +:+ c)).
  by rewrite IH.
Qed.

(** Two stripped, non-empty strings joined by a space are stripped. *)
Lemma stripped_join a b :
  stripped a → a ≠ EmptyString → stripped b → b ≠ EmptyString →
  stripped (a +:+ " " +:+ b).
Proof.
  intros Ha Hane Hb Hbne. unfold stripped, strip.
  destruct a as [|c a]; [done|].
  change (String c a +:+ " " +:+ b) with (String c (a +:+ " " +:+ b)).
  rewrite lstrip_nonspace by by eapply stripped_head.
  change (String c (a +:+ " " +:+ b)) with (String c a +:+ " " +:+ b).
  rewrite <- str_app_assoc.
  apply rstrip_app; [by apply stripped_rstrip|done].
Qed.

Lemma stripped_strip s : stripped (strip s).
Proof. apply strip_idemp. Qed.

(** A word found after stripping was there before. *)
Lemma str_in_lstrip_inv p s : str_in p (lstrip s) = true → str_in p s = true.
Proof.
  induction s as [|c s IH]; [done|]. simpl lstrip.
  destruct (is_space c); [|done]. intros H%IH.
  rewrite str_in_cons, H. apply orb_true_r.
Qed.

Lemma prefix_rstrip_inv s : ∀ p,
  String.prefix p (rstrip s) = true → String.prefix p s = true.
Proof.
  induction s as [|c s IH]; intros [|a p]; try done.
  simpl rstrip. destruct (rstrip s) as [|b r] eqn:Hr.
  - destruct (is_space c); [done|]. rewrite !prefix_cons.
    case_decide; [|done]. intros ->%prefix_empty_r. by destruct s.
  - rewrite !prefix_cons. case_decide; [|done]. apply IH.
Qed.

Lemma str_in_rstrip_inv p s : str_in p (rstrip s) = true → str_in p s = true.
Proof.
  induction s as [|c s IH]; [done|].
  destruct p as [|a p]; [done|].
  simpl rstrip. destruct (rstrip s) as [|b r] eqn:Hr.
  - destruct (is_space c) eqn:Hc; [done|].
    rewrite !str_in_cons. intros [H|H]%orb_true_iff; [|by cbn in H].
    rewrite (prefix_rstrip_inv (String c s) (String a p)); [done|].
    simpl rstrip. by rewrite Hr, Hc.
  - rewrite !str_in_cons. intros [H|H]%orb_true_iff.
    + rewrite (prefix_rstrip_inv (String c s) (String a p)); [done|].
      simpl rstrip. by rewrite Hr.
    + rewrite (IH H). apply orb_true_r.
Qed.

Lemma str_in_strip_inv p s : str_in p (strip s) = true → str_in p s = true.
Proof. unfold strip. intros H%str_in_rstrip_inv. by apply str_in_lstrip_inv. Qed.

Lemma lower_idemp s : lower (lower s) = lower s.
Proof.
  induction s as [|c s IH]; [done|]. simpl. rewrite IH. f_equal.
  each_char c; reflexivity.
Qed.


(** ** The extraction reads stripped lines only *)

Lemma loop_body_ext lines1 lines2 :
  length lines1 = length lines2 →
  (∀ i, line_at lines1 i = line_at lines2 i) →
  ∀ i, loop_body lines1 i = loop_body lines2 i.
Proof.
  intros Hlen Hat i.
  assert (Hscan : ∀ js, scan_quantity lines1 js = scan_quantity lines2 js).
  { induction js as [|j js IH]; [done|]. simpl. by rewrite Hat, IH. }
  assert (Hname : ∀ j, name_continuation lines1 j = name_continuation lines2 j).
  { intros j. unfold name_continuation. by rewrite Hlen, !Hat. }
  unfold loop_body, find_quantity. rewrite Hat, Hname.
  destruct (is_noise _); [done|]. destruct (has_food_keyword _); [|done].
  destruct (name_continuation lines2 i) as [meal_name i1].
  by rewrite Hlen, Hscan.
Qed.

Lemma while_loop_ext lines1 lines2 :
  length lines1 = length lines2 →
  (∀ i, line_at lines1 i = line_at lines2 i) →
  ∀ k i c, (length lines1 - i <= k)%nat →
    while_loop lines1 i c = while_loop lines2 i c.
Proof.
  intros Hlen Hat. induction k as [|k IH]; intros i c Hk;
    rewrite (while_loop_step lines1), (while_loop_step lines2), <- Hlen;
    case_decide; try done; try lia.
  rewrite <- (loop_body_ext lines1 lines2 Hlen Hat).
  apply IH. pose proof (loop_body_advances lines1 i). lia.
Qed.

Lemma line_at_strip lines i : line_at (strip <$> lines) i = line_at lines i.
Proof.
  unfold line_at. revert i.
  induction lines as [|l lines IH]; intros [|i]; simpl;
    auto using strip_idemp.
Qed.

(** X1.  White space at the ends of the lines of a page never changes
    its totals: the extraction gives the same mapping on the stripped
    lines. *)
Theorem extract_strips_lines lines :
  extract_meals_from_lines (strip <$> lines) = extract_meals_from_lines lines.
Proof.
  unfold extract_meals_from_lines.
  apply (while_loop_ext _ _ (length_fmap _ _) (line_at_strip lines)
           (length (strip <$> lines))).
  lia.
Qed.

(** ** Pages without a food keyword *)

Lemma page_of_fillers lines : page_of (Filler <$> lines) = lines.
Proof.
  unfold page_of. induction lines as [|l lines IH]; [done|].
  rewrite !fmap_cons. simpl. by rewrite IH.
Qed.

Lemma fillers_no_record lines : omap segment_record (Filler <$> lines) = [].
Proof. induction lines as [|l lines IH]; [done|]. by rewrite fmap_cons. Qed.

(** X2.  A page on which every line is noise or holds no food keyword
    has the empty mapping, and [process_page] returns it as it is. *)
Theorem no_keyword_no_totals page :
  Forall (fun l => is_noise (strip l) = true ∨ has_food_keyword (strip l) = false)
         (split_lines (page_text page)) →
  extract_meals_from_page page = ∅ ∧ process_page page = page.
Proof.
  intros H.
  assert (Hempty : extract_meals_from_page page = ∅).
  { unfold extract_meals_from_page.
    rewrite <- (page_of_fillers (split_lines (page_text page))).
    rewrite extract_page_of; [by rewrite fillers_no_record|].
    by apply Forall_fmap. }
  split; [done|]. unfold process_page. by rewrite Hempty.
Qed.

Lemma no_keyword_no_totals_witness :
  process_page {| page_text := "Date" +:+ String (chr 10) "Veggie Bowl"
                               +:+ String (chr 10) "150";
                  page_width := 600; page_height := 800; page_annots := [] |}
  = {| page_text := "Date" +:+ String (chr 10) "Veggie Bowl"
                    +:+ String (chr 10) "150";
       page_width := 600; page_height := 800; page_annots := [] |}.
Proof.
  assert (H : Forall (fun l => is_noise (strip l) = true
                               ∨ has_food_keyword (strip l) = false)
                ["Date"; "Veggie Bowl"; "150"]).
  { repeat (apply Forall_cons_2; [vm_compute; auto|]). apply List.Forall_nil. }
  match goal with
  | |- process_page ?page = _ => exact (proj2 (no_keyword_no_totals page H))
  end.
Defined.

(** ** What the totals add up to *)

Lemma sum_values_add_count k q c : sum_values (add_count k q c) = sum_values c + q.
Proof.
  assert (Hcomm : ∀ (j1 j2 : string) (z1 z2 y : Z),
             z1 + (z2 + y) = z2 + (z1 + y)) by (intros; lia).
  unfold sum_values, add_count.
  destruct (c !! k) as [v|] eqn:Hk; simpl.
  - rewrite <- insert_delete_eq.
    rewrite map_fold_insert_L; [|by intros; apply Hcomm|apply lookup_delete_eq].
    rewrite (map_fold_delete_L _ _ k v c); [lia|by intros; apply Hcomm|done].
  - rewrite map_fold_insert_L; [lia|by intros; apply Hcomm|done].
Qed.

Lemma sum_values_aggregate rs : ∀ c,
  sum_values (aggregate rs c) = sum_values c + foldr Z.add 0 (quantity <$> rs).
Proof.
  induction rs as [|r rs IH]; intros c; [simpl; lia|].
  rewrite aggregate_cons, IH, sum_values_add_count, fmap_cons. simpl. lia.
Qed.

(** X3.  No quantity is lost or counted twice by the aggregation: the
    totals of a page add up to the sum of the quantities of its
    records. *)
Theorem totals_add_up lines :
  sum_values (extract_meals_from_lines lines)
  = foldr Z.add 0 (quantity <$> meal_records lines).
Proof.
  rewrite extract_is_aggregate, sum_values_aggregate.
  unfold sum_values. by rewrite map_fold_empty.
Qed.

Lemma records_from_length lines :
  ∀ k i, (length lines - i <= k)%nat →
    (length (records_from lines i) <= length lines - i)%nat.
Proof.
  induction k as [|k IH]; intros i Hk; rewrite records_from_step;
    case_decide; simpl; try lia.
  rewrite length_app.
  pose proof (loop_body_advances lines i) as Hadv.
  specialize (IH (loop_body lines i).1 ltac:(lia)).
  assert (length (option_list (loop_body lines i).2) <= 1)%nat
    by (destruct (loop_body lines i).2; simpl; lia).
  lia.
Qed.

Lemma category_sum_bound k rs :
  (∀ r, r ∈ rs → 1 <= quantity r <= 100) →
  0 <= category_sum k rs <= 100 * Z.of_nat (length rs).
Proof.
  induction rs as [|r rs IH]; intros Hq.
  - unfold category_sum. simpl. lia.
  - rewrite category_sum_cons.
    assert (1 <= quantity r <= 100) by (apply Hq; left).
    assert (0 <= category_sum k rs <= 100 * Z.of_nat (length rs))
      by (apply IH; intros r' Hr'; apply Hq; by right).
    rewrite length_cons. case_decide; lia.
Qed.

Lemma aggregate_size rs : ∀ c,
  (size (aggregate rs c) <= size c + length rs)%nat.
Proof.
  induction rs as [|r rs IH]; intros c; [simpl; lia|].
  rewrite aggregate_cons. specialize (IH (add_count (categorize_meal (name r)) (quantity r) c)).
  assert (size (add_count (categorize_meal (name r)) (quantity r) c) <= S (size c))%nat.
  { unfold add_count. destruct (c !! categorize_meal (name r)) eqn:Hk.
    - erewrite map_size_insert_Some; [lia|done].
    - rewrite map_size_insert_None; [lia|done]. }
  rewrite length_cons. lia.
Qed.

(** X4.  The output is bounded by the size of the page: a page of [n]
    lines has at most [n] categories, hence at most [n] blocks, and no
    total above [100 * n]. *)
Theorem totals_bounded_by_lines lines :
  (size (extract_meals_from_lines lines) <= length lines)%nat
  ∧ ∀ category total,
      extract_meals_from_lines lines !! category = Some total →
      total <= 100 * Z.of_nat (length lines).
Proof.
  assert (Hlen : (length (meal_records lines) <= length lines)%nat).
  { pose proof (records_from_length lines (length lines) 0 ltac:(lia)).
    unfold meal_records. lia. }
  split.
  - rewrite extract_is_aggregate.
    pose proof (aggregate_size (meal_records lines) ∅) as Hs.
    rewrite map_size_empty in Hs. lia.
  - intros category total Hk.
    pose proof (aggregate_lookup_sum (meal_records lines) ∅ category) as Hsum.
    rewrite <- extract_is_aggregate, Hk, lookup_empty in Hsum. simpl in Hsum.
    pose proof (category_sum_bound category (meal_records lines)
                  (meal_records_quantity lines)) as Hb.
    lia.
Qed.


(** ** The keys of the mapping *)

Ltac forall_cases :=
  repeat match goal with
         | H : Forall _ (_ :: _) |- _ =>
             apply Forall_cons_1 in H as [? ?]; simpl in *
         | H : Forall _ [] |- _ => clear H
         end.

Lemma prefix_app_r p : ∀ a b,
  String.prefix p a = true → String.prefix p (a +:+ b) = true.
Proof.
  induction p as [|c p IH]; intros a b.
  - intros _. by destruct (a +:+ b).
  - destruct a as [|d a]; [done|].
    change (String d a +:+ b) with (String d (a +:+ b)).
    rewrite !prefix_cons. case_decide; [apply IH|done].
Qed.

Lemma str_in_app_r p a b : str_in p a = true → str_in p (a +:+ b) = true.
Proof.
  induction a as [|d a IH].
  - cbn [str_in]. rewrite orb_false_r. intros ->%prefix_empty_r.
    by destruct ("" +:+ b).
  - change (String d a +:+ b) with (String d (a +:+ b)).
    rewrite !str_in_cons. intros [H|H]%orb_true_iff.
    + pose proof (prefix_app_r _ (String d a) b H) as H'.
      change (String d a +:+ b) with (String d (a +:+ b)) in H'.
      by rewrite H'.
    + rewrite (IH H). apply orb_true_r.
Qed.

Lemma lower_app a b : lower (a +:+ b) = lower a +:+ lower b.
Proof.
  induction a as [|c a IH]; [done|].
  change (String c a +:+ b) with (String c (a +:+ b)). simpl lower.
  by rewrite IH.
Qed.

Lemma has_food_keyword_app a b :
  has_food_keyword a = true → has_food_keyword (a +:+ b) = true.
Proof.
  unfold has_food_keyword. rewrite !existsb_exists.
  intros (kw & Hin & Hkw). exists kw. split; [done|].
  rewrite lower_app. by apply str_in_app_r.
Qed.

(** The name of a record is a stripped line, or two of them joined by a
    space, and holds a food keyword. *)
Lemma loop_body_name lines i r :
  (loop_body lines i).2 = Some r →
  stripped (name r) ∧ has_food_keyword (name r) = true.
Proof.
  unfold loop_body.
  destruct (is_noise (line_at lines i)) eqn:Hn; [done|].
  destruct (has_food_keyword (line_at lines i)) eqn:Hk; [|done].
  assert (Hne : line_at lines i ≠ EmptyString).
  { intros He. rewrite He in Hk. done. }
  assert (Hname : stripped (name_continuation lines i).1
                  ∧ has_food_keyword (name_continuation lines i).1 = true).
  { unfold name_continuation.
    destruct (_ <? _)%nat; [|split; [apply stripped_strip|done]].
    destruct (is_continuation (line_at lines (i + 1))) eqn:Hc;
      [|split; [apply stripped_strip|done]].
    simpl. split.
    - apply stripped_join; try apply stripped_strip; [done|].
      intros He. rewrite He in Hc. done.
    - by apply has_food_keyword_app. }
  destruct (name_continuation lines i) as [meal_name i1].
  destruct (0 <? _); [|done]. by intros [= <-].
Qed.

Lemma records_from_name lines :
  ∀ k i r, (length lines - i <= k)%nat →
    r ∈ records_from lines i →
    stripped (name r) ∧ has_food_keyword (name r) = true.
Proof.
  induction k as [|k IH]; intros i r Hk; rewrite records_from_step;
    case_decide; try lia; try (by intros ?%elem_of_nil).
  intros [Hr|Hr]%elem_of_app.
  - destruct (loop_body lines i).2 eqn:Hb; simpl in Hr.
    + apply list_elem_of_singleton in Hr as ->. by eapply loop_body_name.
    + by apply elem_of_nil in Hr.
  - eapply IH; [|done]. pose proof (loop_body_advances lines i). lia.
Qed.

(** X5.  Every key of the mapping of a page is one of the five category
    names, or else the meal name itself: a non-empty string without
    white space at its ends that holds one of "pasta", "pizza", "burger",
    "salad", "soup", "rice" and none of the category keywords. *)
Theorem totals_keys lines key :
  is_Some (extract_meals_from_lines lines !! key) →
  key ∈ category_rules.*2
  ∨ (stripped key ∧ key ≠ EmptyString
     ∧ existsb (fun keyword => str_in keyword (lower key)) plain_keywords = true
     ∧ Forall (fun rule =>
                 Forall (fun keyword => ¬ mentions keyword key) rule.1)
         category_rules).
Proof.
  rewrite extract_is_aggregate, aggregate_lookup_is_Some, lookup_empty.
  intros [[? [=]]|(r & Hr & Hkey)].
  apply (records_from_name lines (length lines) 0 r ltac:(lia)) in Hr
    as [Hstripped Hkw].
  destruct (categorize_meal_cases (name r)) as [Hfix|[Hfall Hnone]];
    [left; by rewrite <- Hkey|right].
  rewrite Hstripped in Hfall. rewrite Hfall in Hkey. subst key.
  split; [done|]. split; [intros He; by rewrite He in Hkw|].
  split; [|done].
  unfold has_food_keyword, food_keywords in Hkw. unfold plain_keywords.
  unfold category_rules, mentions in Hnone.
  forall_cases.
  repeat match goal with
         | H : str_in ?kw ?s ≠ true |- _ =>
             apply not_true_is_false in H; try rewrite H in Hkw; clear H
         end.
  by rewrite !orb_false_r in Hkw |- *.
Qed.

Lemma totals_keys_witness :
  "Pasta Bake" ∈ category_rules.*2
  ∨ (stripped "Pasta Bake" ∧ "Pasta Bake" ≠ EmptyString
     ∧ existsb (fun keyword => str_in keyword (lower "Pasta Bake"))
         plain_keywords = true
     ∧ Forall (fun rule =>
                 Forall (fun keyword => ¬ mentions keyword "Pasta Bake") rule.1)
         category_rules).
Proof.
  apply (totals_keys ["  Pasta"; "Bake "; "30"] "Pasta Bake").
  vm_compute. eauto.
Defined.

Lemma categorize_meal_fallback meal_name :
  Forall (fun rule => Forall (fun keyword => ¬ mentions keyword meal_name) rule.1)
    category_rules →
  categorize_meal meal_name = strip meal_name.
Proof.
  unfold category_rules, mentions. intros Hnone.
  forall_cases.
  unfold categorize_meal.
  repeat match goal with
         | H : str_in ?kw ?s ≠ true |- _ => apply not_true_is_false in H; rewrite H
         end.
  done.
Qed.

(** X6.  [categorize_meal] is idempotent: a category name is its own
    category. *)
Theorem categorize_meal_idempotent meal_name :
  categorize_meal (categorize_meal meal_name) = categorize_meal meal_name.
Proof.
  destruct (categorize_meal_cases meal_name) as [Hfix|[Hfall Hnone]].
  - unfold category_rules in Hfix. simpl in Hfix.
    repeat (apply elem_of_cons in Hfix as [->|Hfix]; [reflexivity|]).
    by apply elem_of_nil in Hfix.
  - rewrite Hfall, categorize_meal_fallback; [apply strip_idemp|].
    eapply Forall_impl; [exact Hnone|]. intros rule Hrule.
    eapply Forall_impl; [exact Hrule|]. intros keyword Hkw Hm. apply Hkw.
    unfold mentions in *. rewrite lower_strip in Hm.
    by apply str_in_strip_inv.
Qed.


(** ** The command line *)

Lemma str_length_app a b :
  String.length (a +:+ b) = (String.length a + String.length b)%nat.
Proof.
  induction a as [|c a IH]; [done|].
  change (String c a +:+ b) with (String c (a +:+ b)). simpl. by rewrite IH.
Qed.

Lemma endswith_app stem suffix : endswith (stem +:+ suffix) suffix = true.
Proof.
  induction stem as [|c stem IH].
  - change (EmptyString +:+ suffix) with suffix.
    destruct suffix; simpl; by rewrite ?String.eqb_refl, ?Ascii.eqb_refl.
  - change (String c stem +:+ suffix) with (String c (stem +:+ suffix)).
    cbn [endswith]. rewrite IH. apply orb_true_r.
Qed.

Lemma endswith_inv s suffix :
  endswith s suffix = true → ∃ stem, s = stem +:+ suffix.
Proof.
  induction s as [|c s IH]; cbn [endswith].
  - rewrite orb_false_r. intros ->%String.eqb_eq. by exists EmptyString.
  - intros [->%String.eqb_eq|H]%orb_true_iff; [by exists EmptyString|].
    destruct (IH H) as [stem ->]. by exists (String c stem).
Qed.

Lemma drop_last_app stem suffix :
  drop_last (String.length suffix) (stem +:+ suffix) = stem.
Proof.
  unfold drop_last. rewrite str_length_app.
  replace (String.length stem + String.length suffix - String.length suffix)%nat
    with (String.length stem) by lia.
  induction stem as [|c stem IH]; [by destruct suffix|].
  change (String c stem +:+ suffix) with (String c (stem +:+ suffix)).
  simpl. by rewrite IH.
Qed.

Lemma drop_last_pdf stem : drop_last 4 (stem +:+ ".pdf") = stem.
Proof. exact (drop_last_app stem ".pdf"). Qed.

Lemma default_output_stem stem :
  default_output (stem +:+ ".pdf") = stem +:+ "_with_totals.pdf".
Proof.
  unfold default_output. rewrite endswith_app.
  by rewrite drop_last_pdf.
Qed.

Lemma default_output_differs input_pdf : default_output input_pdf ≠ input_pdf.
Proof.
  intros H. apply (f_equal String.length) in H.
  unfold default_output in H.
  destruct (endswith input_pdf ".pdf") eqn:He.
  - apply endswith_inv in He as [stem ->].
    rewrite drop_last_pdf, !str_length_app in H. simpl in H. lia.
  - rewrite str_length_app in H. simpl in H. lia.
Qed.

Lemma default_output_suffix input_pdf :
  endswith (default_output input_pdf) "_with_totals.pdf" = true.
Proof.
  unfold default_output.
  destruct (endswith input_pdf ".pdf"); apply endswith_app.
Qed.

(** X7.  [main] leaves with exit code 1 when no input path is given and
    takes a given output path as it is; otherwise the output path ends
    with "_with_totals.pdf", is never the input path itself, and is the
    input path with a final ".pdf" replaced by that suffix. *)
Theorem main_output_path :
  main [] = UsageExit 1
  ∧ (∀ prog, main [prog] = UsageExit 1)
  ∧ (∀ prog input_pdf output_pdf rest,
       main (prog :: input_pdf :: output_pdf :: rest)
       = RunCounter input_pdf output_pdf)
  ∧ (∀ prog input_pdf,
       ∃ output_pdf,
         main [prog; input_pdf] = RunCounter input_pdf output_pdf
         ∧ endswith output_pdf "_with_totals.pdf" = true
         ∧ output_pdf ≠ input_pdf
         ∧ (endswith input_pdf ".pdf" = false →
            output_pdf = input_pdf +:+ "_with_totals.pdf")
         ∧ (∀ stem, input_pdf = stem +:+ ".pdf" →
            output_pdf = stem +:+ "_with_totals.pdf")).
Proof.
  split; [done|]. split; [done|]. split; [done|].
  intros prog input_pdf. exists (default_output input_pdf).
  split; [done|]. split; [apply default_output_suffix|].
  split; [apply default_output_differs|]. split.
  - intros H. unfold default_output. by rewrite H.
  - intros stem ->. apply default_output_stem.
Qed.

(** X8.  The default output path does not tell "report" from
    "report.pdf": an input path without the final ".pdf" and the same
    path with it are written to the same output file. *)
Theorem default_output_collision prog stem :
  endswith stem ".pdf" = false →
  main [prog; stem +:+ ".pdf"] = RunCounter (stem +:+ ".pdf") (stem +:+ "_with_totals.pdf")
  ∧ main [prog; stem] = RunCounter stem (stem +:+ "_with_totals.pdf").
Proof.
  intros H. unfold main. simpl.
  rewrite default_output_stem. unfold default_output. by rewrite H.
Qed.

Lemma default_output_collision_witness :
  main ["meal_counter_automation.py"; "report.pdf"]
  = RunCounter "report.pdf" "report_with_totals.pdf"
  ∧ main ["meal_counter_automation.py"; "report"]
    = RunCounter "report" "report_with_totals.pdf".
Proof.
  exact (default_output_collision "meal_counter_automation.py" "report" eq_refl).
Defined.

(** ** The download name of [app.py] *)

Lemma replace_no_occurrence old new s :
  str_in old s = false → replace_from old new 0 s = s.
Proof.
  induction s as [|c s IH]; [done|].
  rewrite str_in_cons. intros [Hp Hs]%orb_false_iff.
  cbn [replace_from]. rewrite Hp, (IH Hs). done.
Qed.

Lemma prefix_pdf_boundary s rest :
  String.prefix ".pdf" (s +:+ ".pdf" +:+ rest) = true →
  s = EmptyString ∨ String.prefix ".pdf" s = true.
Proof.
  destruct s as [|a [|b [|c [|d s]]]]; [by left|..]; intros H; right;
    repeat match type of H with
           | context [String ?x ?s +:+ ?t] =>
               change (String x s +:+ t) with (String x (s +:+ t)) in H
           | context [EmptyString +:+ ?t] =>
               change (EmptyString +:+ t) with t in H
           end;
    rewrite ?prefix_cons in *;
    repeat (case_decide; simplify_eq; try done).
  by destruct s.
Qed.

Lemma output_filename_app stem rest :
  str_in ".pdf" stem = false →
  output_filename (stem +:+ ".pdf" +:+ rest)
  = stem +:+ "_with_totals.pdf" +:+ output_filename rest.
Proof.
  unfold output_filename, py_replace.
  induction stem as [|c stem IH]; intros Hs.
  - by destruct rest.
  - change (String c stem +:+ ".pdf" +:+ rest)
      with (String c (stem +:+ ".pdf" +:+ rest)).
    cbn [replace_from].
    destruct (String.prefix ".pdf" (String c (stem +:+ ".pdf" +:+ rest))) eqn:Hp.
    + apply (prefix_pdf_boundary (String c stem) rest) in Hp as [?|Hp]; [done|].
      rewrite str_in_cons, Hp in Hs. done.
    + rewrite str_in_cons in Hs. apply orb_false_iff in Hs as [_ Hs].
      rewrite (IH Hs). done.
Qed.

Lemma str_app_empty_r s : s +:+ EmptyString = s.
Proof.
  induction s as [|c s IH]; [done|].
  change (String c s +:+ "") with (String c (s +:+ "")). by rewrite IH.
Qed.

(** X9.  The download name is the upload name with every ".pdf"
    replaced by "_with_totals.pdf", from left to right: a name without
    ".pdf" is kept as it is, an inner ".pdf" is replaced as well, and for
    a name [stem.pdf] whose stem holds no ".pdf" it is the default output
    path of [main]. *)
Theorem output_filename_spec :
  (∀ upload_name,
     str_in ".pdf" upload_name = false →
     output_filename upload_name = upload_name)
  ∧ (∀ stem rest,
       str_in ".pdf" stem = false →
       output_filename (stem +:+ ".pdf" +:+ rest)
       = stem +:+ "_with_totals.pdf" +:+ output_filename rest)
  ∧ (∀ stem,
       str_in ".pdf" stem = false →
       output_filename (stem +:+ ".pdf") = default_output (stem +:+ ".pdf")).
Proof.
  split; [intros n; apply replace_no_occurrence|].
  split; [apply output_filename_app|].
  intros stem Hs. rewrite default_output_stem.
  pose proof (output_filename_app stem EmptyString Hs) as H.
  by rewrite !str_app_empty_r in H.
Qed.

Example output_filename_examples :
  output_filename "report.pdf" = "report_with_totals.pdf"
  ∧ output_filename "REPORT.PDF" = "REPORT.PDF"
  ∧ output_filename "a.pdf.pdf" = "a_with_totals.pdf_with_totals.pdf"
  ∧ default_output "a.pdf.pdf" = "a.pdf_with_totals.pdf".
Proof. vm_compute. repeat split; reflexivity. Qed.


(** ** The geometry of the blocks *)

Lemma totals_blocks_lookup w h (meal_totals : gmap string Z) i blk :
  totals_blocks w h meal_totals !! i = Some blk →
  (i < size meal_totals)%nat
  ∧ ∃ item,
      blk = make_block w
              (h - inject_Z 90
               - inject_Z (Z.of_nat (size meal_totals) * line_height))%Q
              i item.
Proof.
  unfold totals_blocks. rewrite sorted_items_length, list_lookup_imap.
  destruct (sorted_items meal_totals !! i) as [item|] eqn:Hi; [|done].
  simpl. intros [= <-]. split; [|by exists item].
  rewrite <- sorted_items_length. by eapply lookup_lt_Some.
Qed.

(** X10.  Every block is centred on the page, [9.6 * len(text)] wide and
    22 high; it stays within the width of the page exactly when
    [9.6 * len(text) <= page_width] (no test of the source keeps a long
    text inside the page). *)
Theorem block_is_centred w h (meal_totals : gmap string Z) i blk :
  totals_blocks w h meal_totals !! i = Some blk →
  let width := ((96 # 10) * Qnat (String.length (text blk)))%Q in
  ((x_left (rect blk) + x_right (rect blk)) / 2 == w / 2
   ∧ x_right (rect blk) - x_left (rect blk) == width
   ∧ y_bottom (rect blk) - y_top (rect blk) == 22
   ∧ (0 <= x_left (rect blk) ∧ x_right (rect blk) <= w ↔ width <= w))%Q.
Proof.
  intros (_ & [category total] & ->)%totals_blocks_lookup. simpl.
  change (inject_Z line_height) with 22%Q. unfold Qnat.
  set (len := inject_Z _).
  split; [field|]. split; [field|]. split; [ring|].
  unfold Qdiv. change (/ 2)%Q with (1 # 2)%Q.
  split; [intros [? ?]|intros ?; split]; lra.
Qed.

Lemma block_is_centred_witness :
  ∃ blk,
    totals_blocks 600 800 {[ "Beef Meal" := 12 ]} !! 0%nat = Some blk
    ∧ text blk = "Beef Meal Total: 12"
    ∧ ((x_left (rect blk) + x_right (rect blk)) / 2 == 600 / 2)%Q.
Proof.
  eexists. split; [vm_compute; reflexivity|]. split; [reflexivity|].
  refine (proj1 (block_is_centred 600 800 {[ "Beef Meal" := 12 ]} 0 _ _)).
  vm_compute. reflexivity.
Defined.

(** X11.  The blocks are stacked downwards in the order of the sorted
    categories without overlap, all of them between
    [page_height - 90 - 22*n] and [page_height - 90]; the first block
    starts above the top of the page exactly when
    [page_height < 90 + 22*n]. *)
Theorem blocks_are_stacked w h (meal_totals : gmap string Z) :
  let n := size meal_totals in
  let blocks := totals_blocks w h meal_totals in
  ((∀ i j bi bj, (i < j)%nat → blocks !! i = Some bi → blocks !! j = Some bj →
      y_bottom (rect bi) <= y_top (rect bj))
   ∧ (∀ i blk, blocks !! i = Some blk →
        h - 90 - Qnat n * 22 <= y_top (rect blk)
        ∧ y_bottom (rect blk) <= h - 90)
   ∧ (∀ blk, blocks !! 0%nat = Some blk →
        (y_top (rect blk) < 0 ↔ h < 90 + Qnat n * 22)))%Q.
Proof.
  intros n blocks. unfold blocks. split; [|split].
  - intros i j bi bj Hij (_ & [ci ti] & ->)%totals_blocks_lookup
      (_ & [cj tj] & ->)%totals_blocks_lookup. simpl.
    rewrite !Qnat_times. change (inject_Z line_height) with 22%Q.
    pose proof (Qnat_le (S i) j Hij) as Hle. rewrite Qnat_S in Hle. lra.
  - intros i blk (Hi & [c t] & ->)%totals_blocks_lookup. simpl.
    rewrite !Qnat_times. change (inject_Z line_height) with 22%Q.
    change (inject_Z 90) with 90%Q. fold n in Hi |- *.
    pose proof (Qnat_nonneg i). pose proof (Qnat_le (S i) n Hi) as Hle.
    rewrite Qnat_S in Hle. lra.
  - intros blk (_ & [c t] & ->)%totals_blocks_lookup. simpl.
    rewrite !Qnat_times. change (inject_Z line_height) with 22%Q.
    change (inject_Z 90) with 90%Q. fold n.
    change (Qnat 0) with 0%Q. split; intros ?; lra.
Qed.

(** ** Pages and documents *)

Lemma add_totals_empty page : add_totals_to_page page ∅ = page.
Proof.
  destruct page as [t w h annots]. unfold add_totals_to_page. simpl.
  f_equal. unfold totals_blocks, sorted_items.
  rewrite map_to_list_empty. simpl. apply app_nil_r.
Qed.

Lemma process_page_adds page :
  process_page page = add_totals_to_page page (extract_meals_from_page page).
Proof.
  unfold process_page. destruct (size _ =? 0)%nat eqn:Hs; [|done].
  apply Nat.eqb_eq, map_size_empty_iff in Hs. rewrite Hs.
  by rewrite add_totals_empty.
Qed.

(** X12.  [process_pdf] keeps the number of pages and, on every page,
    the size and the annotations already there: after them it appends
    the blocks of the page's totals, as many as the page has categories.
    The test [if meal_totals:] is a shortcut: running
    [add_totals_to_page] with an empty mapping adds nothing. *)
Theorem process_pdf_only_appends doc :
  process_pdf doc
  = (fun page => add_totals_to_page page (extract_meals_from_page page)) <$> doc
  ∧ Forall2
      (fun page page' =>
         let blocks :=
           totals_blocks (page_width page) (page_height page)
             (extract_meals_from_page page) in
         page_width page' = page_width page
         ∧ page_height page' = page_height page
         ∧ page_annots page' = page_annots page ++ blocks
         ∧ length blocks = size (extract_meals_from_page page))
      doc (process_pdf doc).
Proof.
  unfold process_pdf. split.
  - induction doc as [|page doc IH]; [done|].
    simpl. by rewrite process_page_adds, IH.
  - induction doc as [|page doc IH]; [constructor|].
    simpl. constructor; [|done].
    rewrite process_page_adds. simpl. repeat split.
    unfold totals_blocks. by rewrite length_imap, sorted_items_length.
Qed.

(** ** The progress callback of [app.py] *)

Lemma app_loop_fold total : ∀ rest done calls,
  foldl (app_loop_body total) (done ++ rest, calls)
        (seq (length done) (length rest))
  = (done ++ (process_page <$> rest),
     calls ++ ((fun k => (S k, total)) <$> seq (length done) (length rest))).
Proof.
  induction rest as [|page rest IH]; intros done calls.
  - csimpl. by rewrite !app_nil_r.
  - csimpl. rewrite list_lookup_middle by done.
    rewrite insert_app_r_alt by lia. rewrite Nat.sub_diag. simpl.
    rewrite (cons_middle (process_page page)), (assoc (++) done).
    replace (S (length done)) with (length (done ++ [process_page page]))
      by (rewrite length_app; simpl; lia).
    rewrite IH. rewrite <- !(assoc (++)). simpl.
    rewrite length_app. simpl. rewrite !Nat.add_1_r. done.
Qed.

Lemma app_process_pdf_eq doc :
  app_process_pdf doc
  = (process_pdf doc, (fun k => (S k, length doc)) <$> seq 0 (length doc)).
Proof.
  unfold app_process_pdf, py_range. rewrite Nat.sub_0_r.
  exact (app_loop_fold (length doc) doc [] []).
Qed.

(** X13.  With a progress callback, [process_pdf] produces the same
    pages as without, and calls the callback once per page, in order,
    with [(1, n)], ..., [(n, n)]; [update_progress] therefore never
    divides by zero, hands a fraction in (0, 1] to the progress bar, and
    hands 1 at the last page. *)
Theorem progress_is_reported doc :
  (app_process_pdf doc).1 = process_pdf doc
  ∧ (app_process_pdf doc).2
    = (fun k => (S k, length doc)) <$> seq 0 (length doc)
  ∧ ∀ current total,
      (current, total) ∈ (app_process_pdf doc).2 →
      ∃ fraction,
        update_progress current total = Some fraction
        ∧ (0 < fraction ∧ fraction <= 1)%Q
        ∧ (current = total → fraction == 1)%Q.
Proof.
  rewrite app_process_pdf_eq. simpl. split; [done|]. split; [done|].
  intros current total (k & [= -> ->] & Hk)%list_elem_of_fmap.
  apply elem_of_seq in Hk. unfold update_progress.
  destruct (length doc =? 0)%nat eqn:Hz; [apply Nat.eqb_eq in Hz; lia|].
  eexists. split; [done|].
  assert (Hpos : (0 < Qnat (length doc))%Q).
  { unfold Qnat. change 0%Q with (inject_Z 0). rewrite <- Zlt_Qlt. lia. }
  assert (Hk1 : (1 <= Qnat (S k))%Q).
  { unfold Qnat. change 1%Q with (inject_Z 1). rewrite <- Zle_Qle. lia. }
  pose proof (Qnat_le (S k) (length doc) ltac:(lia)) as Hle.
  split; [split|].
  - apply Qlt_shift_div_l; [done|]. lra.
  - apply Qle_shift_div_r; [done|]. lra.
  - intros ->. field. lra.
Qed.


(** ** Lines taken as a continuation *)

(** X14.  A line merged into the name before it is consumed: the loop
    goes on two lines after the name line, so the merged line starts no
    record of its own, food keyword or not. *)
Theorem continuation_is_consumed lines i meal_counts :
  (i + 1 < length lines)%nat →
  is_noise (line_at lines i) = false →
  has_food_keyword (line_at lines i) = true →
  is_continuation (line_at lines (i + 1)) = true →
  (loop_body lines i).1 = (i + 2)%nat
  ∧ while_loop lines i meal_counts
    = while_loop lines (i + 2)
        (count_record (loop_body lines i).2 meal_counts)
  ∧ records_from lines i
    = option_list (loop_body lines i).2 ++ records_from lines (i + 2).
Proof.
  intros Hlen Hn Hk Hc.
  assert (Hcursor : (loop_body lines i).1 = (i + 2)%nat).
  { rewrite loop_body_meal by done. simpl. unfold name_continuation.
    apply Nat.ltb_lt in Hlen. rewrite Hlen, Hc. simpl. lia. }
  split; [done|].
  rewrite (while_loop_step lines i), (records_from_step lines i), Hcursor.
  rewrite !decide_True by lia. done.
Qed.

Lemma continuation_is_consumed_witness :
  (loop_body ["Pasta"; "Fish Pie"; "7"] 0).1 = 2%nat
  ∧ extract_meals_from_lines ["Pasta"; "Fish Pie"; "7"] = {[ "Fish Meal" := 7 ]}
  ∧ meal_records ["Pasta"; "Fish Pie"; "7"]
    = [{| name := "Pasta Fish Pie"; quantity := 7 |}].
Proof.
  split.
  - apply (continuation_is_consumed ["Pasta"; "Fish Pie"; "7"] 0 ∅);
      [simpl; lia|reflexivity..].
  - vm_compute. split; reflexivity.
Defined.
